(** * A JWT client for a Django REST framework API: py_client/jwt.py

    The class [JWTClient] keeps an access token and a refresh token, stores
    them in a local file, verifies and refreshes them against the API and
    attaches them to requests.  This file embeds the class in Rocq and
    proves what its methods do.

    The embedding is shallow.  A method of the class is a computation in a
    small monad [M] that threads the object and the disk, may raise a Python
    exception, and records the effects it has on the outside world (lines
    printed, prompts, HTTP exchanges, file writes and removals).  What the
    outside world answers (the server, the person at the keyboard) is an
    argument of every run, the environment [Env].

    What is taken for granted about the outside world:
    - [requests.post] and [requests.get] come back with a response (a
      connection that fails makes [requests] raise; that is not modelled);
    - [input] and [getpass] come back with a line;
    - the credentials path names a regular file or nothing, and reading,
      writing and removing it succeed;
    - [json.loads(json.dumps(v))] is [v]. *)

From stdpp Require Import base strings gmap list pretty.
From Stdlib Require Import ZArith Ascii String.

Open Scope string_scope.
Open Scope Z_scope.

(** ** Python values

    The values the program handles come out of JSON documents: [json.loads]
    and [Response.json()] build them.  A float is kept by the two things the
    program can observe of it, its truth value and its [str()].  A [dict] is
    an association list in insertion order; Python keeps its keys distinct, and
    [dict_get] reads the first binding of a key. *)

#[local] Set Warnings "-register-all".

Inductive pyval : Type :=
  | PNone
  | PBool (b : bool)
  | PInt (n : Z)
  | PFloat (nonzero : bool) (shown : string)
  | PStr (s : string)
  | PList (l : list pyval)
  | PDict (d : list (string * pyval)).

(** [bool(v)], the test behind [if v], [not v], [v and w], [v or w]. *)
Definition truthy (v : pyval) : bool :=
  match v with
  | PNone => false
  | PBool b => b
  | PInt n => negb (n =? 0)
  | PFloat nonzero _ => nonzero
  | PStr s => negb (String.eqb s EmptyString)
  | PList l => match l with [] => false | _ => true end
  | PDict d => match d with [] => false | _ => true end
  end.

(** [d.get(k)]: the value bound to [k], [None] when there is none. *)
Fixpoint dict_get (d : list (string * pyval)) (k : string) : pyval :=
  match d with
  | [] => PNone
  | (k', v) :: d' => if String.eqb k' k then v else dict_get d' k
  end.

(** [k in d] for a dict [d]. *)
Fixpoint dict_has (d : list (string * pyval)) (k : string) : bool :=
  match d with
  | [] => false
  | (k', _) :: d' => String.eqb k' k || dict_has d' k
  end.

(** [sub in s] for two strings: [sub] occurs somewhere in [s]. *)
Fixpoint str_in (sub s : string) : bool :=
  String.prefix sub s ||
  match s with
  | EmptyString => false
  | String _ s' => str_in sub s'
  end.

Definition is_str (k : string) (v : pyval) : bool :=
  match v with
  | PStr s => String.eqb s k
  | _ => false
  end.

(** [k in v] for a string [k] and any value [v]: a key of a dict, an element
    of a list, a substring of a string; on anything else Python raises
    [TypeError], here [None]. *)
Definition py_in (k : string) (v : pyval) : option bool :=
  match v with
  | PDict d => Some (dict_has d k)
  | PList l => Some (existsb (is_str k) l)
  | PStr s => Some (str_in k s)
  | _ => None
  end.

(** *** [str()] and [repr()]

    An f-string formats a value with [str()].  On a string that is the string
    itself; on the other values it is [repr()].  Strings are byte strings
    here; [repr_str] follows CPython on ASCII text and leaves bytes above 127
    (UTF-8 encoded printable characters) as they are. *)

Definition dquote : ascii := "034"%char.
Definition squote : ascii := "039"%char.
Definition backslash : ascii := "092"%char.
Definition newline : string := String "010"%char EmptyString.

Definition hex_digit (n : N) : ascii :=
  match n with
  | 0 => "0" | 1 => "1" | 2 => "2" | 3 => "3" | 4 => "4" | 5 => "5"
  | 6 => "6" | 7 => "7" | 8 => "8" | 9 => "9" | 10 => "a" | 11 => "b"
  | 12 => "c" | 13 => "d" | 14 => "e" | _ => "f"
  end%N%char.

Definition repr_char (quote c : ascii) : string :=
  let n := N_of_ascii c in
  if Ascii.eqb c quote || Ascii.eqb c backslash then String backslash (String c EmptyString)
  else if (n =? 9)%N then String backslash "t"
  else if (n =? 10)%N then String backslash "n"
  else if (n =? 13)%N then String backslash "r"
  else if (n <? 32)%N || (n =? 127)%N then
    String backslash (String "x" (String (hex_digit (n / 16)) (String (hex_digit (n mod 16)) EmptyString)))
  else String c EmptyString.

Fixpoint has_char (c : ascii) (s : string) : bool :=
  match s with
  | EmptyString => false
  | String c' s' => Ascii.eqb c' c || has_char c s'
  end.

Fixpoint repr_chars (quote : ascii) (s : string) : string :=
  match s with
  | EmptyString => EmptyString
  | String c s' => repr_char quote c +:+ repr_chars quote s'
  end.

Definition repr_str (s : string) : string :=
  let quote := if has_char squote s && negb (has_char dquote s) then dquote else squote in
  String quote (repr_chars quote s +:+ String quote EmptyString).

Fixpoint py_repr (v : pyval) : string :=
  match v with
  | PNone => "None"
  | PBool true => "True"
  | PBool false => "False"
  | PInt n => pretty n
  | PFloat _ shown => shown
  | PStr s => repr_str s
  | PList l => "[" +:+ String.concat ", " (map py_repr l) +:+ "]"
  | PDict d =>
      "{" +:+ String.concat ", "
                (map (fun kv => repr_str (fst kv) +:+ ": " +:+ py_repr (snd kv)) d) +:+ "}"
  end.

Definition py_str (v : pyval) : string :=
  match v with
  | PStr s => s
  | _ => py_repr v
  end.

(** ** The outside world

    [requests] gives back a [Response]; the program reads its status code,
    its text and the outcome of [json()], which is [None] here when the call
    raises because the body is not JSON. *)

Inductive method : Type := GET | POST.

Record Request : Type := {
  rq_method : method;
  rq_url : string;
  rq_json : option pyval;
  rq_headers : gmap string string
}.

Record Response : Type := {
  status_code : Z;
  text : string;
  json : option pyval
}.

(** The answers of the outside world during one run: the server's response
    to each request and what is typed at each prompt. *)
Record Env : Type := {
  send : Request -> Response;
  typed : string -> string;
  typed_hidden : string -> string
}.

(** The text of a file is kept by what [json.loads] makes of it: a document
    ([Dumped v] is the text [json.dumps(v)], or any other text that loads as
    [v]) or text that does not load. *)
Inductive file_text : Type :=
  | Garbled (s : string)
  | Dumped (v : pyval).

Inductive event : Type :=
  | Printed (line : string)
  | Prompted (prompt answer : string)
  | PromptedHidden (prompt : string)
  | Sent (rq : Request) (rs : Response)
  | Wrote (path : string) (t : file_text)
  | Unlinked (path : string).

Inductive exn : Type :=
  | Exception (msg : string)
  | AttributeError
  | TypeError
  | JSONDecodeError.

(** ** The object and the monad

    The dataclass fields [access], [refresh], [header_type], [cred_path];
    [base_endpoint] has no annotation, so it is a class attribute, the same
    for every instance.  [cred_path] is optional because [write_creds] tests
    it against [None]. *)

Record JWTClient : Type := {
  access : pyval;
  refresh : pyval;
  header_type : string;
  cred_path : option string
}.

Definition base_endpoint : string := "http://localhost:8000/api".

Record state : Type := {
  self : JWTClient;
  disk : gmap string file_text
}.

Inductive result (A : Type) : Type :=
  | Ok (a : A)
  | Raised (e : exn).
Arguments Ok {A} a.
Arguments Raised {A} e.

Definition M (A : Type) : Type := Env -> state -> result A * state * list event.

Definition ret {A} (a : A) : M A := fun _ st => (Ok a, st, []).

Definition bind {A B} (m : M A) (k : A -> M B) : M B :=
  fun env st =>
    match m env st with
    | (Ok a, st1, evs1) =>
        match k a env st1 with
        | (r, st2, evs2) => (r, st2, (evs1 ++ evs2)%list)
        end
    | (Raised e, st1, evs1) => (Raised e, st1, evs1)
    end.

Definition raise {A} (e : exn) : M A := fun _ st => (Raised e, st, []).

Declare Scope prog_scope.
Delimit Scope prog_scope with prog.
Bind Scope prog_scope with M.
Notation "x ← m ; k" := (bind m (fun x => k))
  (at level 20, m at level 100, k at level 200, only parsing) : prog_scope.
Notation "m ;; k" := (bind m (fun _ => k))
  (at level 100, k at level 200, only parsing, right associativity) : prog_scope.
Open Scope prog_scope.

Definition get_self : M JWTClient := fun _ st => (Ok (self st), st, []).

Definition set_access (v : pyval) : M unit :=
  fun _ st =>
    let c := self st in
    (Ok tt,
     {| self := {| access := v; refresh := refresh c;
                   header_type := header_type c; cred_path := cred_path c |};
        disk := disk st |}, []).

Definition set_refresh (v : pyval) : M unit :=
  fun _ st =>
    let c := self st in
    (Ok tt,
     {| self := {| access := access c; refresh := v;
                   header_type := header_type c; cred_path := cred_path c |};
        disk := disk st |}, []).

Definition emit (e : event) : M unit := fun _ st => (Ok tt, st, [e]).

Definition py_print (line : string) : M unit := emit (Printed line).

Definition py_input (prompt : string) : M string :=
  fun env st => let answer := typed env prompt in (Ok answer, st, [Prompted prompt answer]).

Definition py_getpass (prompt : string) : M string :=
  fun env st => (Ok (typed_hidden env prompt), st, [PromptedHidden prompt]).

Definition requests_post (url : string) (body : pyval) (headers : gmap string string)
  : M Response :=
  fun env st =>
    let rq := {| rq_method := POST; rq_url := url; rq_json := Some body;
                 rq_headers := headers |} in
    (Ok (send env rq), st, [Sent rq (send env rq)]).

Definition requests_get (url : string) (headers : gmap string string) : M Response :=
  fun env st =>
    let rq := {| rq_method := GET; rq_url := url; rq_json := None;
                 rq_headers := headers |} in
    (Ok (send env rq), st, [Sent rq (send env rq)]).

(** [r.json()] *)
Definition response_json (r : Response) : M pyval :=
  match json r with
  | Some v => ret v
  | None => raise JSONDecodeError
  end.

(** [data.get(k)]: only a dict has the method. *)
Definition py_get (data : pyval) (k : string) : M pyval :=
  match data with
  | PDict d => ret (dict_get d k)
  | _ => raise AttributeError
  end.

(** [k in v] *)
Definition py_contains (k : string) (v : pyval) : M bool :=
  match py_in k v with
  | Some b => ret b
  | None => raise TypeError
  end.

(** The four uses of [self.cred_path]: [exists()], [read_text()] under
    [json.loads], [write_text(json.dumps(data))] and [unlink()].  On a
    missing path ([None]) the attribute lookup raises. *)

Definition path_exists : M bool :=
  fun _ st =>
    match cred_path (self st) with
    | None => (Raised AttributeError, st, [])
    | Some p => (Ok (bool_decide (is_Some (disk st !! p))), st, [])
    end.

Definition path_unlink : M unit :=
  fun _ st =>
    match cred_path (self st) with
    | None => (Raised AttributeError, st, [])
    | Some p => (Ok tt, {| self := self st; disk := delete p (disk st) |}, [Unlinked p])
    end.

Definition path_write_dumps (data : pyval) : M unit :=
  fun _ st =>
    match cred_path (self st) with
    | None => (Raised AttributeError, st, [])
    | Some p =>
        (Ok tt, {| self := self st; disk := <[p := Dumped data]> (disk st) |},
         [Wrote p (Dumped data)])
    end.

(** The [try] block of [__post_init__]: [json.loads(self.cred_path.read_text())],
    and on any exception the message and [None]. *)
Definition load_creds : M pyval :=
  fun _ st =>
    let tampered := (Ok PNone, st, [Printed "Assuming creds has been tampered with"]) in
    match cred_path (self st) with
    | None => tampered
    | Some p =>
        match disk st !! p with
        | Some (Dumped v) => (Ok v, st, [])
        | Some (Garbled _) => tampered
        | None => tampered
        end
    end.

(** ** The methods of [JWTClient] *)

(** [get_headers(self, header_type=None)] *)
Definition get_headers (c : JWTClient) (arg : option string) : gmap string string :=
  let _type :=
    match arg with
    | Some s => if truthy (PStr s) then s else header_type c
    | None => header_type c
    end in
  let token := access c in
  if negb (truthy token) then ∅
  else {[ "Authorization" := _type +:+ " " +:+ py_str token ]}.

(** [write_creds(self, data)] *)
Definition write_creds (data : pyval) : M unit :=
  c ← get_self;
  match cred_path c with
  | None => ret tt
  | Some _ =>
      a ← py_get data "access";
      set_access a;;
      r ← py_get data "refresh";
      set_refresh r;;
      c ← get_self;
      if truthy (access c) && truthy (refresh c) then path_write_dumps data
      else ret tt
  end.

(** [perform_auth(self)] *)
Definition perform_auth : M unit :=
  let endpoint := base_endpoint +:+ "/token/" in
  username ← py_input ("What is your username?" +:+ newline);
  password ← py_getpass ("What is your password?" +:+ newline);
  r ← requests_post endpoint
        (PDict [("username", PStr username); ("password", PStr password)]) ∅;
  if negb (status_code r =? 200) then
    raise (Exception ("Access not granted: " +:+ text r))
  else
    py_print "access granted";;
    data ← response_json r;
    write_creds data.

(** [verify_token(self)] *)
Definition verify_token : M bool :=
  c ← get_self;
  let data := PDict [("token", PStr (py_str (access c)))] in
  let endpoint := base_endpoint +:+ "/token/verify/" in
  r ← requests_post endpoint data ∅;
  ret (status_code r =? 200).

(** [clear_tokens(self)] *)
Definition clear_tokens : M unit :=
  set_access PNone;;
  set_refresh PNone;;
  found ← path_exists;
  if found then path_unlink else ret tt.

(** [perform_refresh(self)] *)
Definition perform_refresh : M bool :=
  py_print "Refreshing token.";;
  c ← get_self;
  let headers := get_headers c None in
  let data := PDict [("refresh", PStr (py_str (refresh c)))] in
  let endpoint := base_endpoint +:+ "/token/refresh/" in
  r ← requests_post endpoint data headers;
  if negb (status_code r =? 200) then
    clear_tokens;;
    ret false
  else
    refresh_data ← response_json r;
    found ← py_contains "access" refresh_data;
    if negb found then
      clear_tokens;;
      ret false
    else
      a ← py_get refresh_data "access";
      c ← get_self;
      let stored_data := PDict [("access", a); ("refresh", refresh c)] in
      write_creds stored_data;;
      ret true.

(** [__post_init__(self)] *)
Definition post_init : M unit :=
  found ← path_exists;
  if found then
    data ← load_creds;
    match data with
    | PNone =>
        clear_tokens;;
        perform_auth
    | _ =>
        a ← py_get data "access";
        set_access a;;
        r ← py_get data "refresh";
        set_refresh r;;
        token_verified ← verify_token;
        if negb token_verified then
          refreshed ← perform_refresh;
          if negb refreshed then
            py_print "invalid data, login again.";;
            clear_tokens;;
            perform_auth
          else ret tt
        else ret tt
    end
  else perform_auth.

(** [list(self, endpoint=None, limit=3)] *)
Definition list_ (endpoint : option string) (limit : Z) : M pyval :=
  c ← get_self;
  let headers := get_headers c None in
  let endpoint :=
    match endpoint with
    | None => base_endpoint +:+ "/products/?limit=" +:+ pretty limit
    | Some e =>
        if negb (str_in base_endpoint e)
        then base_endpoint +:+ "/products/?limit=" +:+ pretty limit
        else e
    end in
  r ← requests_get endpoint headers;
  if negb (status_code r =? 200) then
    raise (Exception ("Request not complete " +:+ text r))
  else response_json r.

(** ** Notions used in the statements *)

(** The three components of a run. *)
Definition outcome {A} (x : result A * state * list event) : result A := x.1.1.
Definition final {A} (x : result A * state * list event) : state := x.1.2.
Definition effects {A} (x : result A * state * list event) : list event := x.2.

(** The object with its two tokens replaced. *)
Definition with_tokens (a r : pyval) (c : JWTClient) : JWTClient :=
  {| access := a; refresh := r; header_type := header_type c; cred_path := cred_path c |}.

(** The state once the mapping [d] of the file is loaded into the object. *)
Definition loaded (d : list (string * pyval)) (st : state) : state :=
  {| self := with_tokens (dict_get d "access") (dict_get d "refresh") (self st);
     disk := disk st |}.

Definition login_url : string := base_endpoint +:+ "/token/".
Definition verify_url : string := base_endpoint +:+ "/token/verify/".
Definition refresh_url : string := base_endpoint +:+ "/token/refresh/".
Definition products_url (limit : Z) : string :=
  base_endpoint +:+ "/products/?limit=" +:+ pretty limit.

(** The requests that [verify_token], [perform_refresh] and [perform_auth]
    send, as functions of the object and of what is typed. *)
Definition verify_request (c : JWTClient) : Request :=
  {| rq_method := POST; rq_url := verify_url;
     rq_json := Some (PDict [("token", PStr (py_str (access c)))]);
     rq_headers := ∅ |}.

Definition refresh_request (c : JWTClient) : Request :=
  {| rq_method := POST; rq_url := refresh_url;
     rq_json := Some (PDict [("refresh", PStr (py_str (refresh c)))]);
     rq_headers := get_headers c None |}.

Definition login_request (env : Env) : Request :=
  {| rq_method := POST; rq_url := login_url;
     rq_json :=
       Some (PDict [("username", PStr (typed env ("What is your username?" +:+ newline)));
                    ("password", PStr (typed_hidden env ("What is your password?" +:+ newline)))]);
     rq_headers := ∅ |}.

(** The events of one login, up to the server's answer. *)
Definition login_events (env : Env) : list event :=
  [Prompted ("What is your username?" +:+ newline)
     (typed env ("What is your username?" +:+ newline));
   PromptedHidden ("What is your password?" +:+ newline);
   Sent (login_request env) (send env (login_request env))].

(** How often a run has made the login exchange: the requests posted to
    [/token/]. *)
Definition is_login (e : event) : bool :=
  match e with
  | Sent rq _ =>
      match rq_method rq with
      | POST => String.eqb (rq_url rq) login_url
      | GET => false
      end
  | _ => false
  end.

Definition logins (evs : list event) : nat := List.length (List.filter is_login evs).

(** A response that [perform_refresh] takes as a refusal: a status other
    than 200, or a JSON body (a dict, a list or a string) in which ['access']
    does not occur. *)
Definition refresh_rejected (r : Response) : Prop :=
  status_code r <> 200 \/
  exists v, json r = Some v /\ py_in "access" v = Some false.

(** *** Reachable states

    The public operations of the object after its construction. *)
Inductive op : Type :=
  | OpLogin
  | OpVerify
  | OpRefresh
  | OpPersist (data : pyval)
  | OpClear
  | OpList (endpoint : option string) (limit : Z).

Definition run_op (o : op) : M unit :=
  match o with
  | OpLogin => perform_auth
  | OpVerify => _ ← verify_token; ret tt
  | OpRefresh => _ ← perform_refresh; ret tt
  | OpPersist data => write_creds data
  | OpClear => clear_tokens
  | OpList endpoint limit => _ ← list_ endpoint limit; ret tt
  end.

(** The states an object can be in: [__post_init__] has returned, and any
    number of operations have run since, each against any environment; an
    operation that raises leaves the object as it was at that point.
    [fair] restricts the environments and [sound] the mappings that are
    loaded from the file or given to [write_creds]. *)
Inductive reachable_when (fair : Env -> Prop) (sound : pyval -> Prop) : state -> Prop :=
  | reach_init env c dk st evs :
      fair env ->
      (forall p v, cred_path c = Some p -> dk !! p = Some (Dumped v) -> sound v) ->
      post_init env {| self := c; disk := dk |} = (Ok tt, st, evs) ->
      reachable_when fair sound st
  | reach_op env o st :
      fair env ->
      (forall data, o = OpPersist data -> sound data) ->
      reachable_when fair sound st ->
      reachable_when fair sound (final (run_op o env st)).

Definition reachable : state -> Prop :=
  reachable_when (fun _ => True) (fun _ => True).

(** A mapping whose refresh token comes with an access token. *)
Definition paired (v : pyval) : Prop :=
  match v with
  | PDict d => dict_get d "access" = PNone -> dict_get d "refresh" = PNone
  | _ => True
  end.

(** A server none of whose JSON bodies has a null [access], or a [refresh]
    without an [access]. *)
Definition pairing_server (env : Env) : Prop :=
  forall rq d,
    json (send env rq) = Some (PDict d) ->
    dict_get d "access" = PNone ->
    dict_get d "refresh" = PNone /\ dict_has d "access" = false.

Definition reachable_paired : state -> Prop :=
  reachable_when pairing_server paired.

(** *** Concrete objects, disks and servers for the examples *)

Definition creds_json : string := "creds.json".

Definition fresh_client : JWTClient :=
  {| access := PNone; refresh := PNone; header_type := "Bearer";
     cred_path := Some creds_json |}.

Definition stale_client : JWTClient :=
  {| access := PStr "bad"; refresh := PStr "r1"; header_type := "Bearer";
     cred_path := Some creds_json |}.

Definition stale_file : file_text :=
  Dumped (PDict [("access", PStr "bad"); ("refresh", PStr "r1")]).

(** A server that answers the three token endpoints with the given
    responses, and everything else with 404. *)
Definition server (login verify refreshing : Response) : Env :=
  {| send := fun rq =>
       if String.eqb (rq_url rq) login_url then login
       else if String.eqb (rq_url rq) verify_url then verify
       else if String.eqb (rq_url rq) refresh_url then refreshing
       else {| status_code := 404; text := "Not Found"; json := None |};
     typed := fun _ => "staff";
     typed_hidden := fun _ => "hunter2" |}.

(** A string between double quotes, and the JSON text of an object whose
    values are strings, for the texts of the responses below. *)
Definition quoted (s : string) : string :=
  String dquote (s +:+ String dquote EmptyString).

Definition object_text (fields : list (string * string)) : string :=
  "{" +:+ String.concat ", "
            (map (fun kv => quoted (fst kv) +:+ ": " +:+ quoted (snd kv)) fields) +:+ "}".

Definition ok_object (fields : list (string * string)) : Response :=
  {| status_code := 200; text := object_text fields;
     json := Some (PDict (map (fun kv => (fst kv, PStr (snd kv))) fields)) |}.

Definition unauthorized : Response :=
  {| status_code := 401; text := "token_not_valid"; json := None |}.

Definition ok_empty : Response := ok_object [].

Definition ok_tokens (a r : string) : Response :=
  ok_object [("access", a); ("refresh", r)].

Definition ok_access (a : string) : Response := ok_object [("access", a)].

Definition ok_refresh_only (r : string) : Response := ok_object [("refresh", r)].

Definition ok_not_json : Response :=
  {| status_code := 200; text := "<html></html>"; json := None |}.

Definition ok_null : Response :=
  {| status_code := 200; text := "null"; json := Some PNone |}.

(** The invariant of the specification: no refresh token without an access
    token. *)
Definition tokens_paired (st : state) : Prop :=
  access (self st) = PNone -> refresh (self st) = PNone.

(** A computation that leaves the credentials path and the header scheme of
    the object alone. *)
Definition keeps_config {A} (m : M A) : Prop :=
  forall env st,
    cred_path (self (final (m env st))) = cred_path (self st) /\
    header_type (self (final (m env st))) = header_type (self st).

(** ** The script at the end of the file

    Under [if __name__ == "__main__"] the file builds a client with the
    default fields, lists the first page of products, prints how many
    results it has and, when the page names a next page, lists that one too
    and appends its results. *)

(** [JWTClient(...)]: the fields are set, then [__post_init__] runs. *)
Definition set_self (c : JWTClient) : M unit :=
  fun _ st => (Ok tt, {| self := c; disk := disk st |}, []).

Definition construct (c : JWTClient) : M unit :=
  set_self c;;
  post_init.

(** The values that have a [len()]: lists, strings and dicts.  On any other
    value of a JSON document [len] raises [TypeError]. *)
Inductive sized : Type :=
  | SList (l : list pyval)
  | SStr (s : string)
  | SDict (d : list (string * pyval)).

Definition sized_of (v : pyval) : option sized :=
  match v with
  | PList l => Some (SList l)
  | PStr s => Some (SStr s)
  | PDict d => Some (SDict d)
  | _ => None
  end.

(** A byte of the form [10xxxxxx]: inside a UTF-8 encoded character. *)
Definition is_continuation (c : ascii) : bool := (N_of_ascii c / 64 =? 2)%N.

(** The characters of a string, each with its continuation bytes; the first
    component holds continuation bytes that no character precedes. *)
Fixpoint chars_go (s : string) : string * list string :=
  match s with
  | EmptyString => (EmptyString, [])
  | String c s' =>
      let (pending, cs) := chars_go s' in
      if is_continuation c then (String c pending, cs)
      else (EmptyString, String c pending :: cs)
  end.

Definition chars (s : string) : list string := snd (chars_go s).

(** [len(v)] *)
Definition py_len (v : sized) : Z :=
  match v with
  | SList l => Z.of_nat (List.length l)
  | SStr s => Z.of_nat (List.length (chars s))
  | SDict d => Z.of_nat (List.length d)
  end.

(** [v += w] for a sized [v]: a list is extended by the items of a list, the
    characters of a string or the keys of a dict; a string by a string;
    everything else raises [TypeError], here [None]. *)
Definition py_iadd (v : sized) (w : pyval) : option sized :=
  match v, w with
  | SList l, PList l' => Some (SList (l ++ l'))
  | SList l, PStr s => Some (SList (l ++ map PStr (chars s)))
  | SList l, PDict d => Some (SList (l ++ map (fun kv => PStr (fst kv)) d))
  | SStr s, PStr s' => Some (SStr (s +:+ s'))
  | _, _ => None
  end.

(** [client.list(endpoint=v)] for a value [v]: the source tests [v is None]
    and [str(v)], and [requests] takes the URL of a value that is not a
    string from its [str()]. *)
Definition list_of (endpoint : pyval) (limit : Z) : M pyval :=
  match endpoint with
  | PNone => list_ None limit
  | v => list_ (Some (py_str v)) limit
  end.

(** The script.  The client is built with the default fields,
    [fresh_client].  The value of [results] after [+=] is not used again, so
    only whether [+=] raises is kept.  Within one run the server answers a
    request by its content: the two GET requests of the script are answered
    independently unless the first page names its own URL as the next. *)
Definition main : M unit :=
  construct fresh_client;;
  lookup_1_data ← list_ None 5;
  results ← py_get lookup_1_data "results";
  next_url ← py_get lookup_1_data "next";
  match sized_of results with
  | None => raise TypeError
  | Some results =>
      py_print ("First lookup result length " +:+ pretty (py_len results));;
      if truthy next_url then
        lookup_2_data ← list_of next_url 3;
        more ← py_get lookup_2_data "results";
        match py_iadd results more with
        | Some _ => ret tt
        | None => raise TypeError
        end
      else ret tt
  end.

(** ** More notions for the statements *)

(** A prompt at the keyboard. *)
Definition is_prompt (e : event) : bool :=
  match e with
  | Prompted _ _ | PromptedHidden _ => true
  | _ => false
  end.

(** An HTTP exchange. *)
Definition is_sent (e : event) : bool :=
  match e with
  | Sent _ _ => true
  | _ => false
  end.

(** A GET request. *)
Definition is_get (e : event) : bool :=
  match e with
  | Sent rq _ => match rq_method rq with GET => true | POST => false end
  | _ => false
  end.

Definition gets (evs : list event) : nat := List.length (List.filter is_get evs).

(** A computation that neither prompts nor makes the login exchange. *)
Definition quiet {A} (m : M A) : Prop :=
  forall env st e,
    e ∈ effects (m env st) -> is_prompt e = false /\ is_login e = false.

(** A computation that leaves every file but the credentials file alone. *)
Definition keeps_other_files {A} (m : M A) : Prop :=
  forall env st q,
    cred_path (self st) <> Some q ->
    disk (final (m env st)) !! q = disk st !! q.

(** A computation that removes no file. *)
Definition removes_nothing {A} (m : M A) : Prop :=
  forall env st q,
    is_Some (disk st !! q) -> is_Some (disk (final (m env st)) !! q).

(** The same keyboard and the same server, with another password typed. *)
Definition with_password (pw : string) (env : Env) : Env :=
  {| send := send env; typed := typed env; typed_hidden := fun _ => pw |}.

(** A computation that sends at most [n] GET requests. *)
Definition gets_at_most (n : nat) {A} (m : M A) : Prop :=
  forall env st, (gets (effects (m env st)) <= n)%nat.

(** The first request of the script, from the object that has been built. *)
Definition first_page_request (c : JWTClient) : Request :=
  {| rq_method := GET; rq_url := products_url 5; rq_json := None;
     rq_headers := get_headers c None |}.

(** The request for the page that the first page names as next. *)
Definition next_page_request (c : JWTClient) (next_url : pyval) : Request :=
  {| rq_method := GET;
     rq_url := if str_in base_endpoint (py_str next_url) then py_str next_url
               else products_url 3;
     rq_json := None;
     rq_headers := get_headers c None |}.

(** A 200 answer whose body is a JSON object with the given values under
    [results] and [next]. *)
Definition page (results : pyval) (next_url : pyval) : Response :=
  {| status_code := 200; text := "page";
     json := Some (PDict [("results", results); ("next", next_url)]) |}.

(** A server that has verified tokens on file and answers every GET with
    the given page. *)
Definition catalogue (p : Response) : Env :=
  {| send := fun rq =>
       match rq_method rq with
       | GET => p
       | POST => ok_empty
       end;
     typed := fun _ => "staff";
     typed_hidden := fun _ => "hunter2" |}.

(** ** How the methods run

    The equations that the later proofs rewrite with. *)

Ltac unfold_prog :=
  unfold post_init, perform_refresh, perform_auth, verify_token, clear_tokens,
    write_creds, list_, load_creds, path_exists, path_unlink, path_write_dumps,
    py_contains, py_get, response_json, requests_post, requests_get, py_print,
    py_input, py_getpass, emit, set_access, set_refresh, get_self, raise, ret, bind.

Lemma clear_tokens_run env st p :
  cred_path (self st) = Some p ->
  clear_tokens env st =
    (Ok tt,
     {| self := with_tokens PNone PNone (self st); disk := delete p (disk st) |},
     if bool_decide (is_Some (disk st !! p)) then [Unlinked p] else []).
Proof.
  intros Hp. destruct st as [[a r h cp] dk]; simpl in *; subst cp.
  unfold_prog; simpl. unfold with_tokens; simpl.
  case_bool_decide as Hfile; simpl; [reflexivity|].
  rewrite delete_id; [reflexivity|].
  by apply eq_None_not_Some.
Qed.

Lemma write_creds_run env st p d :
  cred_path (self st) = Some p ->
  let a := dict_get d "access" in
  let r := dict_get d "refresh" in
  write_creds (PDict d) env st =
    if truthy a && truthy r then
      (Ok tt,
       {| self := with_tokens a r (self st); disk := <[p := Dumped (PDict d)]> (disk st) |},
       [Wrote p (Dumped (PDict d))])
    else
      (Ok tt, {| self := with_tokens a r (self st); disk := disk st |}, []).
Proof.
  intros Hp. destruct st as [[a r h cp] dk]; simpl in *; subst cp.
  unfold_prog; simpl.
  destruct (truthy (dict_get d "access") && truthy (dict_get d "refresh")); reflexivity.
Qed.

Lemma write_creds_no_path env st data :
  cred_path (self st) = None ->
  write_creds data env st = (Ok tt, st, []).
Proof.
  intros Hp. destruct st as [[a r h cp] dk]; simpl in *; subst cp. reflexivity.
Qed.

Lemma write_creds_not_dict env st p data :
  cred_path (self st) = Some p ->
  (forall d, data <> PDict d) ->
  write_creds data env st = (Raised AttributeError, st, []).
Proof.
  intros Hp Hd. destruct st as [[a r h cp] dk]; simpl in *; subst cp.
  unfold_prog; simpl.
  destruct data; try reflexivity. by destruct (Hd d).
Qed.

Lemma verify_token_run env st :
  verify_token env st =
    (Ok (status_code (send env (verify_request (self st))) =? 200), st,
     [Sent (verify_request (self st)) (send env (verify_request (self st)))]).
Proof. reflexivity. Qed.

Lemma bind_eq {A B} (m : M A) (k : A -> M B) env st :
  bind m k env st =
    match m env st with
    | (Ok a, st1, evs1) =>
        match k a env st1 with
        | (r, st2, evs2) => (r, st2, (evs1 ++ evs2)%list)
        end
    | (Raised e, st1, evs1) => (Raised e, st1, evs1)
    end.
Proof. reflexivity. Qed.

Lemma outcome_triple {A} (r : result A) st evs : outcome (r, st, evs) = r.
Proof. reflexivity. Qed.

Lemma final_triple {A} (r : result A) st evs : final (r, st, evs) = st.
Proof. reflexivity. Qed.

Lemma effects_triple {A} (r : result A) st evs : effects (r, st, evs) = evs.
Proof. reflexivity. Qed.

#[local] Arguments clear_tokens : simpl never.
#[local] Arguments write_creds : simpl never.
#[local] Arguments verify_token : simpl never.

Lemma perform_refresh_rejected_run env st p :
  cred_path (self st) = Some p ->
  refresh_rejected (send env (refresh_request (self st))) ->
  perform_refresh env st =
    (Ok false,
     {| self := with_tokens PNone PNone (self st); disk := delete p (disk st) |},
     [Printed "Refreshing token.";
      Sent (refresh_request (self st)) (send env (refresh_request (self st)))]
     ++ if bool_decide (is_Some (disk st !! p)) then [Unlinked p] else [])%list.
Proof.
  intros Hp Hrej.
  unfold perform_refresh. cbn.
  change {| rq_method := POST; rq_url := _; rq_json := _; rq_headers := _ |}
    with (refresh_request (self st)).
  set (rs := send env (refresh_request (self st))) in *.
  destruct (status_code rs =? 200) eqn:Hst; cbn.
  - destruct Hrej as [Hne | (v & Hv & Hin)]; [lia|].
    unfold response_json. rewrite Hv. cbn.
    unfold py_contains. rewrite Hin. cbn.
    rewrite bind_eq, (clear_tokens_run env st p Hp). cbn.
    rewrite app_nil_r. reflexivity.
  - rewrite bind_eq, (clear_tokens_run env st p Hp). cbn.
    rewrite app_nil_r. reflexivity.
Qed.

Lemma perform_refresh_accepted_run env st p d :
  cred_path (self st) = Some p ->
  status_code (send env (refresh_request (self st))) = 200 ->
  json (send env (refresh_request (self st))) = Some (PDict d) ->
  dict_has d "access" = true ->
  let stored := [("access", dict_get d "access"); ("refresh", refresh (self st))] in
  perform_refresh env st =
    (Ok true,
     final (write_creds (PDict stored) env st),
     [Printed "Refreshing token.";
      Sent (refresh_request (self st)) (send env (refresh_request (self st)))]
     ++ effects (write_creds (PDict stored) env st))%list.
Proof.
  intros Hp Hst Hv Hin stored.
  unfold perform_refresh. cbn.
  change {| rq_method := POST; rq_url := _; rq_json := _; rq_headers := _ |}
    with (refresh_request (self st)).
  rewrite Hst. cbn. unfold response_json. rewrite Hv. cbn. rewrite Hin. cbn.
  fold stored.
  rewrite bind_eq, (write_creds_run env st p stored Hp).
  destruct (truthy _ && truthy _); cbn; reflexivity.
Qed.

Lemma perform_auth_denied_run env st :
  status_code (send env (login_request env)) <> 200 ->
  perform_auth env st =
    (Raised (Exception ("Access not granted: " +:+ text (send env (login_request env)))),
     st, login_events env).
Proof.
  intros Hst. unfold perform_auth. cbn.
  change {| rq_method := POST; rq_url := _; rq_json := _; rq_headers := _ |}
    with (login_request env).
  destruct (status_code (send env (login_request env)) =? 200) eqn:E; [lia|].
  reflexivity.
Qed.

Lemma perform_auth_granted_run env st data :
  status_code (send env (login_request env)) = 200 ->
  json (send env (login_request env)) = Some data ->
  perform_auth env st =
    (outcome (write_creds data env st),
     final (write_creds data env st),
     login_events env ++ Printed "access granted" :: effects (write_creds data env st))%list.
Proof.
  intros Hst Hv. unfold perform_auth. cbn.
  change {| rq_method := POST; rq_url := _; rq_json := _; rq_headers := _ |}
    with (login_request env).
  rewrite Hst. cbn. unfold response_json. rewrite Hv. cbn.
  destruct (write_creds data env st) as [[res st'] evs]. reflexivity.
Qed.

Lemma perform_auth_not_json_run env st :
  status_code (send env (login_request env)) = 200 ->
  json (send env (login_request env)) = None ->
  perform_auth env st =
    (Raised JSONDecodeError, st, login_events env ++ [Printed "access granted"])%list.
Proof.
  intros Hst Hv. unfold perform_auth. cbn.
  change {| rq_method := POST; rq_url := _; rq_json := _; rq_headers := _ |}
    with (login_request env).
  rewrite Hst. cbn. unfold response_json. rewrite Hv. reflexivity.
Qed.

Lemma write_creds_effects env st data e :
  e ∈ effects (write_creds data env st) ->
  exists p, cred_path (self st) = Some p /\ e = Wrote p (Dumped data).
Proof.
  destruct (cred_path (self st)) as [p|] eqn:Hp.
  - destruct data;
      try (rewrite (write_creds_not_dict env st p) by done; cbn; by intros ?%elem_of_nil).
    rewrite (write_creds_run env st p d Hp).
    destruct (truthy _ && truthy _); cbn.
    + intros ->%list_elem_of_singleton. eauto.
    + by intros ?%elem_of_nil.
  - rewrite write_creds_no_path by done. cbn. by intros ?%elem_of_nil.
Qed.

Lemma logins_app evs1 evs2 : logins (evs1 ++ evs2) = (logins evs1 + logins evs2)%nat.
Proof. unfold logins. by rewrite List.filter_app, length_app. Qed.

Lemma logins_none evs :
  (forall e, e ∈ evs -> is_login e = false) -> logins evs = 0%nat.
Proof.
  unfold logins. induction evs as [|e evs IH]; intros H; [done|].
  cbn. rewrite (H e) by left. apply IH. intros e' He'. apply H. by right.
Qed.

Lemma logins_write_creds env st data : logins (effects (write_creds data env st)) = 0%nat.
Proof.
  apply logins_none. intros e (p & _ & ->)%write_creds_effects. reflexivity.
Qed.

Lemma logins_login_events env : logins (login_events env) = 1%nat.
Proof. reflexivity. Qed.

Lemma perform_auth_logins env st : logins (effects (perform_auth env st)) = 1%nat.
Proof.
  destruct (decide (status_code (send env (login_request env)) = 200)) as [Hst|Hst].
  - destruct (json (send env (login_request env))) as [data|] eqn:Hv.
    + rewrite (perform_auth_granted_run env st data Hst Hv). unfold effects at 1; cbn [snd].
      rewrite logins_app, logins_login_events.
      change (Printed "access granted" :: ?l) with ([Printed "access granted"] ++ l)%list.
      by rewrite logins_app, logins_write_creds.
    + by rewrite (perform_auth_not_json_run env st Hst Hv).
  - by rewrite (perform_auth_denied_run env st Hst).
Qed.

#[local] Arguments perform_auth : simpl never.
#[local] Arguments perform_refresh : simpl never.

Lemma post_init_no_path env st :
  cred_path (self st) = None ->
  post_init env st = (Raised AttributeError, st, []).
Proof.
  intros Hp. unfold post_init, path_exists. rewrite bind_eq, Hp. reflexivity.
Qed.

Lemma post_init_no_file env st p :
  cred_path (self st) = Some p ->
  disk st !! p = None ->
  post_init env st = perform_auth env st.
Proof.
  intros Hp Hf. unfold post_init, path_exists. rewrite bind_eq, Hp, Hf.
  rewrite bool_decide_eq_false_2 by (by intros [? ?]).
  destruct (perform_auth env st) as [[res st'] evs]. reflexivity.
Qed.

Lemma post_init_tampered env st p :
  cred_path (self st) = Some p ->
  (exists s, disk st !! p = Some (Garbled s)) ->
  post_init env st =
    (outcome (perform_auth env (final (clear_tokens env st))),
     final (perform_auth env (final (clear_tokens env st))),
     Printed "Assuming creds has been tampered with" :: Unlinked p
       :: effects (perform_auth env (final (clear_tokens env st)))).
Proof.
  intros Hp [s Hf]. unfold post_init, path_exists, load_creds. rewrite bind_eq, Hp, Hf.
  rewrite bool_decide_eq_true_2 by eauto.
  rewrite bind_eq, Hp, Hf. cbn.
  rewrite bind_eq, (clear_tokens_run env st p Hp), Hf.
  rewrite bool_decide_eq_true_2 by eauto. cbn.
  destruct (perform_auth env _) as [[res st'] evs]. reflexivity.
Qed.

Lemma post_init_null env st p :
  cred_path (self st) = Some p ->
  disk st !! p = Some (Dumped PNone) ->
  post_init env st =
    (outcome (perform_auth env (final (clear_tokens env st))),
     final (perform_auth env (final (clear_tokens env st))),
     Unlinked p :: effects (perform_auth env (final (clear_tokens env st)))).
Proof.
  intros Hp Hf. unfold post_init, path_exists, load_creds. rewrite bind_eq, Hp, Hf.
  rewrite bool_decide_eq_true_2 by eauto.
  rewrite bind_eq, Hp, Hf. cbn.
  rewrite bind_eq, (clear_tokens_run env st p Hp), Hf.
  rewrite bool_decide_eq_true_2 by eauto. cbn.
  destruct (perform_auth env _) as [[res st'] evs]. reflexivity.
Qed.

Lemma post_init_not_a_dict env st p v :
  cred_path (self st) = Some p ->
  disk st !! p = Some (Dumped v) ->
  v <> PNone ->
  (forall d, v <> PDict d) ->
  post_init env st = (Raised AttributeError, st, []).
Proof.
  intros Hp Hf Hnone Hdict. unfold post_init, path_exists, load_creds.
  rewrite bind_eq, Hp, Hf.
  rewrite bool_decide_eq_true_2 by eauto.
  rewrite bind_eq, Hp, Hf. cbn.
  destruct v; try reflexivity; [done|]. by destruct (Hdict d).
Qed.

Lemma post_init_dict_run env st p d :
  cred_path (self st) = Some p ->
  disk st !! p = Some (Dumped (PDict d)) ->
  let verified :=
    Sent (verify_request (self (loaded d st)))
         (send env (verify_request (self (loaded d st)))) in
  post_init env st =
    if status_code (send env (verify_request (self (loaded d st)))) =? 200
    then (Ok tt, loaded d st, [verified])
    else
      match perform_refresh env (loaded d st) with
      | (Ok true, st2, evs2) => (Ok tt, st2, verified :: evs2)
      | (Ok false, st2, evs2) =>
          match clear_tokens env st2 with
          | (Ok _, st3, evs3) =>
              (outcome (perform_auth env st3), final (perform_auth env st3),
               verified :: evs2 ++ Printed "invalid data, login again." :: evs3
                 ++ effects (perform_auth env st3))%list
          | (Raised e, st3, evs3) =>
              (Raised e, st3,
               verified :: evs2 ++ Printed "invalid data, login again." :: evs3)%list
          end
      | (Raised e, st2, evs2) => (Raised e, st2, verified :: evs2)
      end.
Proof.
  intros Hp Hf verified.
  set (ok := status_code _ =? 200).
  unfold post_init, path_exists, load_creds. rewrite bind_eq, Hp, Hf.
  rewrite bool_decide_eq_true_2 by eauto.
  rewrite bind_eq, Hp, Hf. cbn.
  change {| self := _; disk := disk st |} with (loaded d st).
  rewrite bind_eq, (verify_token_run env (loaded d st)). fold verified.
  change (status_code _ =? 200) with ok.
  destruct ok; cbn; [reflexivity|].
  rewrite bind_eq.
  destruct (perform_refresh env (loaded d st)) as [[[[|]|e] st2] evs2]; cbn;
    try reflexivity.
  - by rewrite app_nil_r.
  - rewrite bind_eq.
    destruct (clear_tokens env st2) as [[[[]|e] st3] evs3]; cbn; [|reflexivity].
    destruct (perform_auth env st3) as [[res st4] evs4]. reflexivity.
Qed.

(** After a refused refresh, [__post_init__] clears once more and logs in
    from the cleared state. *)
Lemma post_init_relogin_run env st p d :
  cred_path (self st) = Some p ->
  disk st !! p = Some (Dumped (PDict d)) ->
  status_code (send env (verify_request (self (loaded d st)))) <> 200 ->
  refresh_rejected (send env (refresh_request (self (loaded d st)))) ->
  let cleared := {| self := with_tokens PNone PNone (self st); disk := delete p (disk st) |} in
  post_init env st =
    (outcome (perform_auth env cleared), final (perform_auth env cleared),
     [Sent (verify_request (self (loaded d st)))
        (send env (verify_request (self (loaded d st))));
      Printed "Refreshing token.";
      Sent (refresh_request (self (loaded d st)))
        (send env (refresh_request (self (loaded d st))));
      Unlinked p;
      Printed "invalid data, login again."]
     ++ effects (perform_auth env cleared))%list.
Proof.
  intros Hp Hf Hv Hrej cleared.
  rewrite (post_init_dict_run env st p d Hp Hf).
  destruct (Z.eqb_spec (status_code (send env (verify_request (self (loaded d st))))) 200)
    as [|_]; [done|].
  rewrite (perform_refresh_rejected_run env (loaded d st) p Hp Hrej).
  cbn [loaded disk]. rewrite Hf, bool_decide_eq_true_2 by eauto.
  erewrite clear_tokens_run by exact Hp.
  cbn [disk self]. rewrite lookup_delete_eq, bool_decide_eq_false_2 by (by intros [? ?]).
  rewrite delete_delete_eq. reflexivity.
Qed.

Lemma post_init_verified_run env st p d :
  cred_path (self st) = Some p ->
  disk st !! p = Some (Dumped (PDict d)) ->
  status_code (send env (verify_request (self (loaded d st)))) = 200 ->
  post_init env st =
    (Ok tt, loaded d st,
     [Sent (verify_request (self (loaded d st)))
        (send env (verify_request (self (loaded d st))))]).
Proof.
  intros Hp Hf Hv. rewrite (post_init_dict_run env st p d Hp Hf), Hv. reflexivity.
Qed.

Lemma post_init_refreshed_run env st p d d' :
  cred_path (self st) = Some p ->
  disk st !! p = Some (Dumped (PDict d)) ->
  status_code (send env (verify_request (self (loaded d st)))) <> 200 ->
  status_code (send env (refresh_request (self (loaded d st)))) = 200 ->
  json (send env (refresh_request (self (loaded d st)))) = Some (PDict d') ->
  dict_has d' "access" = true ->
  let stored := [("access", dict_get d' "access"); ("refresh", dict_get d "refresh")] in
  post_init env st =
    (Ok tt, final (write_creds (PDict stored) env (loaded d st)),
     [Sent (verify_request (self (loaded d st)))
        (send env (verify_request (self (loaded d st))));
      Printed "Refreshing token.";
      Sent (refresh_request (self (loaded d st)))
        (send env (refresh_request (self (loaded d st))))]
     ++ effects (write_creds (PDict stored) env (loaded d st)))%list.
Proof.
  intros Hp Hf Hv Hst Hj Hin stored.
  rewrite (post_init_dict_run env st p d Hp Hf).
  destruct (Z.eqb_spec (status_code (send env (verify_request (self (loaded d st))))) 200)
    as [|_]; [done|].
  rewrite (perform_refresh_accepted_run env (loaded d st) p d' Hp Hst Hj Hin).
  reflexivity.
Qed.

(** ** The pairing of the tokens along the operations

    Each operation keeps the tokens paired, against a server that pairs
    them. *)

Section Pairing.

Context (env : Env) (fair : pairing_server env).

Lemma clear_tokens_final_none st :
  access (self (final (clear_tokens env st))) = PNone /\
  refresh (self (final (clear_tokens env st))) = PNone.
Proof.
  destruct (cred_path (self st)) as [p|] eqn:Hp.
  - by rewrite (clear_tokens_run env st p Hp).
  - unfold clear_tokens, final. unfold_prog. cbn. rewrite Hp. done.
Qed.

Lemma write_creds_paired st data :
  paired data ->
  tokens_paired st \/ (outcome (write_creds data env st) = Ok tt /\ is_Some (cred_path (self st))) ->
  tokens_paired (final (write_creds data env st)).
Proof.
  intros Hdata Hst.
  destruct (cred_path (self st)) as [p|] eqn:Hp.
  - destruct data as [| | | | | |d];
      try (rewrite (write_creds_not_dict env st p) in * by done;
           destruct Hst as [Hst | [Hst _]]; [exact Hst | discriminate Hst]).
    rewrite (write_creds_run env st p d Hp).
    destruct (truthy _ && truthy _); exact Hdata.
  - rewrite write_creds_no_path in * by done.
    destruct Hst as [Hst | [_ [? Hst]]]; [exact Hst | discriminate Hst].
Qed.

Lemma perform_auth_paired st :
  tokens_paired st \/ (outcome (perform_auth env st) = Ok tt /\ is_Some (cred_path (self st))) ->
  tokens_paired (final (perform_auth env st)).
Proof.
  intros Hst.
  destruct (decide (status_code (send env (login_request env)) = 200)) as [Hs|Hs].
  - destruct (json (send env (login_request env))) as [data|] eqn:Hv.
    + rewrite (perform_auth_granted_run env st data Hs Hv) in *.
      rewrite final_triple, outcome_triple in *.
      apply write_creds_paired; [|exact Hst].
      destruct data; try exact I. intros Ha. by apply (fair _ _ Hv).
    + rewrite (perform_auth_not_json_run env st Hs Hv) in *.
      destruct Hst as [Hst | [Hst _]]; [exact Hst | discriminate Hst].
  - rewrite (perform_auth_denied_run env st Hs) in *.
    destruct Hst as [Hst | [Hst _]]; [exact Hst | discriminate Hst].
Qed.

Lemma perform_refresh_paired st :
  tokens_paired st ->
  tokens_paired (final (perform_refresh env st)).
Proof.
  intros Hst.
  unfold perform_refresh. cbn.
  change {| rq_method := POST; rq_url := _; rq_json := _; rq_headers := _ |}
    with (refresh_request (self st)).
  set (rs := send env (refresh_request (self st))).
  pose proof (clear_tokens_final_none st) as [Hca Hcr].
  assert (forall (k : unit -> M bool), (forall u, k u = ret false) ->
            tokens_paired (final (bind clear_tokens k env st))) as Hclear.
  { intros k Hk. rewrite bind_eq.
    destruct (clear_tokens env st) as [[[[]|e] st1] evs1]; cbn in *.
    - rewrite Hk. cbn. by intros _.
    - by intros _. }
  destruct (status_code rs =? 200); cbn.
  - unfold response_json. destruct (json rs) as [v|] eqn:Hv; cbn; [|exact Hst].
    unfold py_contains. destruct (py_in "access" v) as [[|]|] eqn:Hin; cbn; [| |exact Hst].
    + destruct v as [| | | | | |d]; cbn; try exact Hst.
      rewrite bind_eq.
      pose proof (write_creds_paired st
                    (PDict [("access", dict_get d "access"); ("refresh", refresh (self st))]))
        as Hw.
      destruct (write_creds _ env st) as [[[[]|e] st1] evs1]; cbn in *.
      * apply Hw; [|by left]. intros Ha. cbn in Hin.
        destruct (fair _ _ Hv Ha) as [_ Hno]. congruence.
      * apply Hw; [|by left]. intros Ha. cbn in Hin.
        destruct (fair _ _ Hv Ha) as [_ Hno]. congruence.
    + specialize (Hclear (fun _ => ret false) (fun _ => eq_refl)).
      destruct (bind clear_tokens _ env st) as [[res st1] evs1]. exact Hclear.
  - specialize (Hclear (fun _ => ret false) (fun _ => eq_refl)).
    destruct (bind clear_tokens _ env st) as [[res st1] evs1]. exact Hclear.
Qed.

Lemma post_init_paired c dk st evs :
  (forall p v, cred_path c = Some p -> dk !! p = Some (Dumped v) -> paired v) ->
  post_init env {| self := c; disk := dk |} = (Ok tt, st, evs) ->
  tokens_paired st.
Proof.
  intros Hfile Hrun.
  set (st0 := {| self := c; disk := dk |}) in *.
  assert (st = final (post_init env st0)) as -> by (by rewrite Hrun).
  assert (outcome (post_init env st0) = Ok tt) as Hok by (by rewrite Hrun).
  clear Hrun.
  destruct (cred_path c) as [p|] eqn:Hp;
    [|by rewrite (post_init_no_path env st0) in Hok].
  specialize (Hfile p).
  destruct (dk !! p) as [[s|v]|] eqn:Hf.
  - rewrite (post_init_tampered env st0 p Hp) by eauto. rewrite final_triple.
    apply perform_auth_paired. left.
    intros _. apply clear_tokens_final_none.
  - destruct v as [| | | | | |d];
      try (by rewrite (post_init_not_a_dict env st0 p _ Hp Hf) in Hok).
    { rewrite (post_init_null env st0 p Hp Hf). rewrite final_triple.
      apply perform_auth_paired. left.
      intros _. apply clear_tokens_final_none. }
    specialize (Hfile (PDict d) eq_refl eq_refl).
    assert (tokens_paired (loaded d st0)) as Hloaded by exact Hfile.
    rewrite (post_init_dict_run env st0 p d Hp Hf) in *.
    destruct (status_code _ =? 200); [exact Hloaded|].
    pose proof (perform_refresh_paired (loaded d st0) Hloaded) as Href.
    destruct (perform_refresh env (loaded d st0)) as [[[[|]|e] st2] evs2];
      rewrite ?final_triple in *; [exact Href| |discriminate Hok].
    pose proof (clear_tokens_final_none st2) as [Hca Hcr].
    destruct (clear_tokens env st2) as [[[[]|e] st3] evs3];
      rewrite ?final_triple in *; [|discriminate Hok].
    apply perform_auth_paired. left. by intros _.
  - rewrite (post_init_no_file env st0 p Hp Hf) in *.
    apply perform_auth_paired. right. split; [done|]. by exists p.
Qed.

Lemma run_op_paired o st :
  (forall data, o = OpPersist data -> paired data) ->
  tokens_paired st ->
  tokens_paired (final (run_op o env st)).
Proof.
  intros Hdata Hst. destruct o as [| | |data| |endpoint limit]; cbn [run_op].
  - apply perform_auth_paired; auto.
  - by rewrite bind_eq, verify_token_run.
  - rewrite bind_eq.
    pose proof (perform_refresh_paired st Hst) as Href.
    by destruct (perform_refresh env st) as [[[b|e] st1] evs1].
  - apply write_creds_paired; auto.
  - intros _. apply clear_tokens_final_none.
  - assert (final (list_ endpoint limit env st) = st) as Hlist.
    { unfold list_. cbn. destruct (negb _); cbn; [done|].
      unfold response_json. by destruct (json _). }
    rewrite bind_eq.
    destruct (list_ endpoint limit env st) as [[[v|e] st1] evs1];
      rewrite final_triple in Hlist; by subst st1.
Qed.

End Pairing.

(** ** The configuration of the object

    No method assigns [cred_path] or [header_type]; and [__post_init__]
    raises when there is no path, so every object that has been built has
    one. *)

Lemma keeps_config_bind {A B} (m : M A) (k : A -> M B) :
  keeps_config m -> (forall a, keeps_config (k a)) -> keeps_config (bind m k).
Proof.
  intros Hm Hk env st. rewrite bind_eq.
  specialize (Hm env st).
  destruct (m env st) as [[[a|e] st1] evs1]; rewrite final_triple in Hm; [|exact Hm].
  specialize (Hk a env st1).
  destruct (k a env st1) as [[r st2] evs2]. rewrite final_triple in *.
  destruct Hm, Hk. split; congruence.
Qed.

Lemma keeps_config_if {A} (b : bool) (m1 m2 : M A) :
  keeps_config m1 -> keeps_config m2 -> keeps_config (if b then m1 else m2).
Proof. intros H1 H2. by destruct b. Qed.

Lemma keeps_config_ret {A} (a : A) : keeps_config (ret a).
Proof. by intros env st. Qed.

Lemma keeps_config_raise {A} (e : exn) : keeps_config (raise (A:=A) e).
Proof. by intros env st. Qed.

Lemma keeps_config_get_self : keeps_config get_self.
Proof. by intros env st. Qed.

Lemma keeps_config_set_access v : keeps_config (set_access v).
Proof. by intros env st. Qed.

Lemma keeps_config_set_refresh v : keeps_config (set_refresh v).
Proof. by intros env st. Qed.

Lemma keeps_config_print line : keeps_config (py_print line).
Proof. by intros env st. Qed.

Lemma keeps_config_input prompt : keeps_config (py_input prompt).
Proof. by intros env st. Qed.

Lemma keeps_config_getpass prompt : keeps_config (py_getpass prompt).
Proof. by intros env st. Qed.

Lemma keeps_config_post url body headers : keeps_config (requests_post url body headers).
Proof. by intros env st. Qed.

Lemma keeps_config_get url headers : keeps_config (requests_get url headers).
Proof. by intros env st. Qed.

Lemma keeps_config_json r : keeps_config (response_json r).
Proof. unfold response_json. destruct (json r); by intros env st. Qed.

Lemma keeps_config_py_get data k : keeps_config (py_get data k).
Proof. destruct data; by intros env st. Qed.

Lemma keeps_config_contains k v : keeps_config (py_contains k v).
Proof. unfold py_contains. destruct (py_in k v); by intros env st. Qed.

Lemma keeps_config_exists : keeps_config path_exists.
Proof. intros env [[a r h [p|]] dk]; done. Qed.

Lemma keeps_config_unlink : keeps_config path_unlink.
Proof. intros env [[a r h [p|]] dk]; done. Qed.

Lemma keeps_config_write data : keeps_config (path_write_dumps data).
Proof. intros env [[a r h [p|]] dk]; done. Qed.

Lemma keeps_config_load : keeps_config load_creds.
Proof.
  intros env [[a r h [p|]] dk]; [|done]. unfold load_creds; cbn.
  by destruct (dk !! p) as [[]|].
Qed.

Create HintDb config discriminated.
#[local] Hint Resolve keeps_config_ret keeps_config_raise keeps_config_get_self
  keeps_config_set_access keeps_config_set_refresh keeps_config_print
  keeps_config_input keeps_config_getpass keeps_config_post keeps_config_get
  keeps_config_json keeps_config_py_get keeps_config_contains keeps_config_exists
  keeps_config_unlink keeps_config_write keeps_config_load : config.

Ltac keeps_config :=
  repeat first
    [ apply keeps_config_bind; [|intros ?]
    | apply keeps_config_if
    | solve [auto with config]
    | match goal with |- keeps_config (match ?x with _ => _ end) => destruct x end ].

Lemma keeps_config_write_creds data : keeps_config (write_creds data).
Proof. unfold write_creds. keeps_config. Qed.

Lemma keeps_config_clear_tokens : keeps_config clear_tokens.
Proof. unfold clear_tokens. keeps_config. Qed.

#[local] Hint Resolve keeps_config_write_creds keeps_config_clear_tokens : config.

Lemma keeps_config_perform_auth : keeps_config perform_auth.
Proof. unfold perform_auth. keeps_config. Qed.

Lemma keeps_config_verify_token : keeps_config verify_token.
Proof. unfold verify_token. keeps_config. Qed.

Lemma keeps_config_perform_refresh : keeps_config perform_refresh.
Proof. unfold perform_refresh. keeps_config. Qed.

#[local] Hint Resolve keeps_config_perform_auth keeps_config_verify_token
  keeps_config_perform_refresh : config.

Lemma keeps_config_list endpoint limit : keeps_config (list_ endpoint limit).
Proof. unfold list_. keeps_config. Qed.

Lemma keeps_config_post_init : keeps_config post_init.
Proof. unfold post_init. keeps_config. Qed.

#[local] Hint Resolve keeps_config_list : config.

Lemma keeps_config_run_op o : keeps_config (run_op o).
Proof. destruct o; cbn [run_op]; keeps_config. Qed.

(** Every object that has been built has a credentials path. *)
Lemma reachable_has_path fair sound st :
  reachable_when fair sound st -> is_Some (cred_path (self st)).
Proof.
  induction 1 as [env c dk st evs _ _ Hrun | env o st _ _ _ IH].
  - destruct (cred_path c) as [p|] eqn:Hp.
    + destruct (keeps_config_post_init env {| self := c; disk := dk |}) as [Hkeep _].
      rewrite Hrun, final_triple in Hkeep. rewrite Hkeep. cbn. rewrite Hp. by exists p.
    + by rewrite (post_init_no_path env {| self := c; disk := dk |}) in Hrun.
  - destruct (keeps_config_run_op o env st) as [Hkeep _]. by rewrite Hkeep.
Qed.

(** ** Properties of the methods *)

Lemma dict_get_absent d k : dict_has d k = false -> dict_get d k = PNone.
Proof.
  induction d as [|[k' v] d IH]; cbn; [done|].
  destruct (String.eqb k' k); cbn; [done|apply IH].
Qed.

Lemma truthy_str s : truthy (PStr s) = true <-> s <> EmptyString.
Proof.
  cbn. destruct (String.eqb_spec s EmptyString); cbn; split; congruence.
Qed.

Lemma falsy_empty_or_absent d k :
  dict_has d k = false \/ dict_get d k = PNone \/ dict_get d k = PStr EmptyString ->
  truthy (dict_get d k) = false.
Proof.
  intros [H%dict_get_absent | [H | H]]; by rewrite H.
Qed.

(** *** Verification *)

(** C3.  Whatever the server answers to the verify request, [verify_token]
    returns a boolean and does not raise; the boolean is [True] exactly when
    the status of the answer is 200, and [False] on any other status.  The
    object and the disk are left as they were. *)
Theorem verify_token_true_iff_200 env st :
  let r := send env (verify_request (self st)) in
  exists b : bool,
    verify_token env st = (Ok b, st, [Sent (verify_request (self st)) r]) /\
    (b = true <-> status_code r = 200) /\
    (b = false <-> status_code r <> 200).
Proof.
  intros r. exists (status_code r =? 200). split; [apply verify_token_run|].
  destruct (Z.eqb_spec (status_code r) 200); split; split; congruence.
Qed.

(** *** Persisting *)

(** C5.  [write_creds] on a mapping [d] writes the file (the one at the
    credentials path, with the text of [d]) only when, after the in-memory
    update, both tokens are non-empty: true in Python's sense, so neither
    [None] nor the empty string.  And when either field of [d] is empty or
    absent (more generally, false in Python's sense) the disk is exactly as
    before and nothing is written. *)
Theorem write_creds_writes_full_pairs_only env st d :
  let run := write_creds (PDict d) env st in
  let a := access (self (final run)) in
  let r := refresh (self (final run)) in
  (forall p t, Wrote p t ∈ effects run ->
     cred_path (self st) = Some p /\ t = Dumped (PDict d) /\
     a = dict_get d "access" /\ r = dict_get d "refresh" /\
     truthy a = true /\ truthy r = true /\
     a <> PNone /\ a <> PStr EmptyString /\ r <> PNone /\ r <> PStr EmptyString) /\
  (forall k, k = "access" \/ k = "refresh" ->
     truthy (dict_get d k) = false ->
     disk (final run) = disk st /\ effects run = []) /\
  (forall k, k = "access" \/ k = "refresh" ->
     dict_has d k = false \/ dict_get d k = PNone \/ dict_get d k = PStr EmptyString ->
     disk (final run) = disk st /\ effects run = []).
Proof.
  intros run a r.
  assert (forall k, k = "access" \/ k = "refresh" ->
            truthy (dict_get d k) = false ->
            disk (final run) = disk st /\ effects run = []) as Hkeep.
  { intros k Hk Hfalse. unfold run.
    destruct (cred_path (self st)) as [p|] eqn:Hp.
    - rewrite (write_creds_run env st p d Hp).
      destruct Hk as [-> | ->]; rewrite Hfalse, ?andb_false_r; done.
    - by rewrite write_creds_no_path. }
  split; [|split; [exact Hkeep|]].
  - intros p t. unfold a, r, run.
    destruct (cred_path (self st)) as [q|] eqn:Hp.
    + rewrite (write_creds_run env st q d Hp).
      destruct (truthy (dict_get d "access")) eqn:Ha,
               (truthy (dict_get d "refresh")) eqn:Hr; cbn;
        try by intros ?%elem_of_nil.
      intros [= <- <-]%list_elem_of_singleton.
      do 6 (split; [done|]).
      repeat split; intros Heq; rewrite Heq in *; discriminate.
    + rewrite write_creds_no_path by done. by intros ?%elem_of_nil.
  - intros k Hk Hempty. apply (Hkeep k Hk). by apply falsy_empty_or_absent.
Qed.

(** C10.  On an object that has a credentials path, [write_creds] on a
    mapping [d] returns normally having set the two tokens to [d.get('access')]
    and [d.get('refresh')], [None] for a key that [d] lacks, also when the
    write is skipped: if one of the two values is empty, the disk is as
    before.  So a mapping without ['refresh'] (or without ['access']) clears
    that token in memory and leaves the file as it was. *)
Theorem write_creds_always_loads env st p d :
  cred_path (self st) = Some p ->
  let run := write_creds (PDict d) env st in
  outcome run = Ok tt /\
  access (self (final run)) = dict_get d "access" /\
  refresh (self (final run)) = dict_get d "refresh" /\
  (truthy (dict_get d "access") && truthy (dict_get d "refresh") = false ->
     disk (final run) = disk st /\ effects run = []) /\
  (dict_has d "access" = false ->
     access (self (final run)) = PNone /\ disk (final run) = disk st) /\
  (dict_has d "refresh" = false ->
     refresh (self (final run)) = PNone /\ disk (final run) = disk st).
Proof.
  intros Hp run. unfold run. rewrite (write_creds_run env st p d Hp).
  destruct (truthy (dict_get d "access")) eqn:Ha,
           (truthy (dict_get d "refresh")) eqn:Hr; cbn;
    (split; [done|]); (split; [done|]); (split; [done|]); (split; [done|]);
    split; intros Hk%dict_get_absent; rewrite Hk in *; done.
Qed.

Lemma write_creds_always_loads_witness :
  let st := {| self := stale_client; disk := {[ creds_json := stale_file ]} |} in
  let run := write_creds (PDict [("access", PStr "new")]) (server unauthorized unauthorized unauthorized) st in
  access (self (final run)) = PStr "new" /\
  refresh (self (final run)) = PNone /\
  disk (final run) !! creds_json = Some stale_file.
Proof.
  intros st run.
  destruct (write_creds_always_loads (server unauthorized unauthorized unauthorized)
              st creds_json [("access", PStr "new")] eq_refl)
    as (_ & Ha & _ & _ & _ & Hr).
  destruct (Hr eq_refl) as [Hr1 Hr2].
  split; [exact Ha|]. split; [exact Hr1|].
  unfold run. rewrite Hr2. reflexivity.
Defined.

(** *** The authorization header *)

(** C6, as stated, fails: a scheme argument that is the empty string is
    given, yet [header_type or self.header_type] falls back to the
    configured scheme.  With the scheme [Bearer] configured and the token
    [tok] held, [get_headers('')] is [{'Authorization': 'Bearer tok'}] and
    not [{'Authorization': ' tok'}]. *)
Lemma get_headers_empty_scheme_falls_back :
  let c := {| access := PStr "tok"; refresh := PStr "r1"; header_type := "Bearer";
              cred_path := Some creds_json |} in
  get_headers c (Some EmptyString) = {[ "Authorization" := "Bearer tok" ]} /\
  get_headers c (Some EmptyString)
    <> {[ "Authorization" := EmptyString +:+ " " +:+ py_str (access c) ]}.
Proof.
  intros c. split; [reflexivity|].
  intros H. apply (f_equal (fun m => m !! "Authorization")) in H.
  vm_compute in H. discriminate H.
Qed.

(** C6, amended.  [get_headers] returns the empty mapping when no access
    token is held (the token is [None] or empty), and otherwise the
    single-entry mapping from [Authorization] to the scheme, a space and the
    access token, where the scheme is the argument when a non-empty one is
    given and the configured [header_type] when the argument is omitted or
    empty. *)
Theorem get_headers_scheme_and_token c :
  (forall arg, truthy (access c) = false -> get_headers c arg = ∅) /\
  (truthy (access c) = true ->
     get_headers c None
       = {[ "Authorization" := header_type c +:+ " " +:+ py_str (access c) ]}) /\
  (forall s, truthy (access c) = true -> s <> EmptyString ->
     get_headers c (Some s) = {[ "Authorization" := s +:+ " " +:+ py_str (access c) ]}) /\
  get_headers c (Some EmptyString) = get_headers c None /\
  (forall tok, access c = PStr tok -> py_str (access c) = tok).
Proof.
  unfold get_headers. repeat split.
  - intros arg ->. reflexivity.
  - intros ->. reflexivity.
  - intros s -> Hs. apply truthy_str in Hs. rewrite Hs. reflexivity.
  - intros tok ->. reflexivity.
Qed.

Lemma get_headers_scheme_and_token_witness :
  get_headers stale_client None = {[ "Authorization" := "Bearer bad" ]} /\
  get_headers stale_client (Some "JWT") = {[ "Authorization" := "JWT bad" ]} /\
  get_headers fresh_client (Some "JWT") = ∅.
Proof.
  destruct (get_headers_scheme_and_token stale_client) as (_ & Hnone & Hsome & _).
  destruct (get_headers_scheme_and_token fresh_client) as (Hempty & _).
  split; [exact (Hnone eq_refl)|].
  split; [apply (Hsome "JWT" eq_refl); discriminate|].
  apply Hempty. reflexivity.
Defined.

(** *** Listing *)

Lemma str_in_prefix sub s : String.prefix sub s = true -> str_in sub s = true.
Proof. intros H. destruct s; cbn [str_in]; by rewrite H. Qed.

Lemma str_in_products_url limit : str_in base_endpoint (products_url limit) = true.
Proof. reflexivity. Qed.

(** C9, as stated, fails: the test of the source is
    [self.base_endpoint not in str(endpoint)], a substring test.  An
    endpoint on another host that merely carries the base URL in its query
    string does not belong to the API (it does not start with the base
    URL), yet the GET request, with the authorization header, goes to it. *)
Lemma list_foreign_endpoint_is_used :
  let env := server unauthorized unauthorized unauthorized in
  let st := {| self := stale_client; disk := ∅ |} in
  let foreign := "http://evil.example/?next=http://localhost:8000/api" in
  String.prefix base_endpoint foreign = false /\
  effects (list_ (Some foreign) 3 env st)
    = [Sent {| rq_method := GET; rq_url := foreign; rq_json := None;
               rq_headers := {[ "Authorization" := "Bearer bad" ]} |}
         {| status_code := 404; text := "Not Found"; json := None |}].
Proof. split; reflexivity. Qed.

(** C9, amended.  [list] sends one GET request.  It goes to the given
    endpoint exactly when an endpoint is given and the base URL of the API
    occurs in it, anywhere (so in particular when the endpoint starts with
    the base URL); when the endpoint is omitted or the base URL does not
    occur in it, the request goes to the base URL followed by
    [/products/?limit=] and the limit. *)
Theorem list_target env st endpoint limit :
  exists rq,
    effects (list_ endpoint limit env st) = [Sent rq (send env rq)] /\
    rq_method rq = GET /\
    (forall e, endpoint = Some e ->
       (rq_url rq = e <-> str_in base_endpoint e = true)) /\
    (forall e, endpoint = Some e -> String.prefix base_endpoint e = true -> rq_url rq = e) /\
    (endpoint = None \/ (exists e, endpoint = Some e /\ str_in base_endpoint e = false) ->
       rq_url rq = base_endpoint +:+ "/products/?limit=" +:+ pretty limit).
Proof.
  set (url := match endpoint with
              | Some e => if str_in base_endpoint e then e else products_url limit
              | None => products_url limit
              end).
  exists {| rq_method := GET; rq_url := url; rq_json := None;
            rq_headers := get_headers (self st) None |}.
  split; [|split; [reflexivity|split; [|split]]].
  - unfold list_. cbn.
    replace (match endpoint with
             | Some e => if negb (str_in base_endpoint e) then _ else e
             | None => _
             end) with url
      by (unfold url, products_url; destruct endpoint as [e|]; [destruct (str_in _ e)|]; done).
    destruct (negb (status_code _ =? 200)); cbn.
    + reflexivity.
    + unfold response_json. destruct (json _); reflexivity.
  - intros e ->. cbn. unfold url.
    destruct (str_in base_endpoint e) eqn:He; [done|].
    split; [|done]. intros <-. by rewrite str_in_products_url in He.
  - intros e -> Hpre. cbn. unfold url. by rewrite (str_in_prefix _ _ Hpre).
  - cbn. unfold url. intros [-> | (e & -> & ->)]; reflexivity.
Qed.

Lemma list_target_witness :
  exists rq,
    effects (list_ (Some "http://example.org/api/products/") 5
               (server unauthorized unauthorized unauthorized)
               {| self := stale_client; disk := ∅ |})
      = [Sent rq (send (server unauthorized unauthorized unauthorized) rq)] /\
    rq_url rq = "http://localhost:8000/api/products/?limit=5".
Proof.
  destruct (list_target (server unauthorized unauthorized unauthorized)
              {| self := stale_client; disk := ∅ |}
              (Some "http://example.org/api/products/") 5)
    as (rq & Hevs & _ & _ & _ & Hdefault).
  exists rq. split; [exact Hevs|].
  rewrite Hdefault; [reflexivity|].
  right. eexists. split; reflexivity.
Defined.

(** *** Logging in *)

(** C8.  When the server answers the login exchange with a status other
    than 200, [perform_auth] raises the exception whose message is
    [Access not granted: ] followed by the text of the response, and leaves
    the object and the disk, so the credentials file, as they were.  (The
    source raises a plain [Exception]; it is the error that the
    specification calls an authentication error.)  On a 200 answer whose
    JSON body is the mapping [d], it prints [access granted] and persists
    [d] with [write_creds]: the tokens in memory become [d.get('access')]
    and [d.get('refresh')], and the file receives [d] if both are
    non-empty. *)
Theorem perform_auth_denied_or_persisted env st :
  let r := send env (login_request env) in
  let run := perform_auth env st in
  (status_code r <> 200 ->
     outcome run = Raised (Exception ("Access not granted: " +:+ text r)) /\
     final run = st /\
     effects run = login_events env) /\
  (forall d p,
     status_code r = 200 -> json r = Some (PDict d) -> cred_path (self st) = Some p ->
     outcome run = Ok tt /\
     final run = final (write_creds (PDict d) env st) /\
     access (self (final run)) = dict_get d "access" /\
     refresh (self (final run)) = dict_get d "refresh" /\
     disk (final run) =
       (if truthy (dict_get d "access") && truthy (dict_get d "refresh")
        then <[p := Dumped (PDict d)]> (disk st) else disk st) /\
     effects run =
       (login_events env ++ Printed "access granted"
          :: effects (write_creds (PDict d) env st))%list).
Proof.
  intros r run. split.
  - intros Hst. unfold run. by rewrite (perform_auth_denied_run env st Hst).
  - intros d p Hst Hv Hp. unfold run.
    rewrite (perform_auth_granted_run env st (PDict d) Hst Hv).
    rewrite (write_creds_run env st p d Hp).
    destruct (truthy (dict_get d "access") && truthy (dict_get d "refresh")); done.
Qed.

Lemma perform_auth_denied_or_persisted_witness :
  let st := {| self := fresh_client; disk := ∅ |} in
  outcome (perform_auth (server unauthorized unauthorized unauthorized) st)
    = Raised (Exception "Access not granted: token_not_valid") /\
  final (perform_auth (server unauthorized unauthorized unauthorized) st) = st /\
  disk (final (perform_auth (server (ok_tokens "a1" "r1") unauthorized unauthorized) st))
    = {[ creds_json := Dumped (PDict [("access", PStr "a1"); ("refresh", PStr "r1")]) ]}.
Proof.
  intros st.
  destruct (perform_auth_denied_or_persisted
              (server unauthorized unauthorized unauthorized) st) as [Hdenied _].
  destruct (perform_auth_denied_or_persisted
              (server (ok_tokens "a1" "r1") unauthorized unauthorized) st) as [_ Hgranted].
  destruct Hdenied as (Hout & Hfin & _); [discriminate|].
  destruct (Hgranted [("access", PStr "a1"); ("refresh", PStr "r1")] creds_json
              eq_refl eq_refl eq_refl) as (_ & _ & _ & _ & Hdisk & _).
  split; [exact Hout|]. split; [exact Hfin|].
  rewrite Hdisk. reflexivity.
Defined.

(** *** Refreshing *)

(** C4, as stated, fails: a response with status 200 whose body is not JSON
    has no [access] field, yet [perform_refresh] does not clear anything and
    does not return [False]: [r.json()] raises, and the tokens and the file
    stay as they were. *)
Lemma perform_refresh_not_json_raises :
  let env := server unauthorized unauthorized ok_not_json in
  let st := {| self := stale_client; disk := {[ creds_json := stale_file ]} |} in
  status_code (send env (refresh_request (self st))) = 200 /\
  json (send env (refresh_request (self st))) = None /\
  outcome (perform_refresh env st) = Raised JSONDecodeError /\
  outcome (perform_refresh env st) <> Ok false /\
  access (self (final (perform_refresh env st))) = PStr "bad" /\
  refresh (self (final (perform_refresh env st))) = PStr "r1" /\
  disk (final (perform_refresh env st)) !! creds_json = Some stale_file.
Proof. vm_compute. repeat split; discriminate. Qed.

(** Likewise for a JSON body that is [null]: the test ['access' in None]
    raises. *)
Lemma perform_refresh_null_raises :
  let env := server unauthorized unauthorized ok_null in
  let st := {| self := stale_client; disk := {[ creds_json := stale_file ]} |} in
  outcome (perform_refresh env st) = Raised TypeError /\
  final (perform_refresh env st) = st.
Proof. split; reflexivity. Qed.

(** C4, amended.  On an object that has a credentials path, when the answer
    to the refresh request has a status other than 200, or has status 200
    and a JSON body (an object, an array or a string) in which [access] does
    not occur, [perform_refresh] sets both tokens to [None], removes the
    credentials file if it exists, and returns [False]. *)
Theorem perform_refresh_rejected_clears env st p :
  cred_path (self st) = Some p ->
  refresh_rejected (send env (refresh_request (self st))) ->
  let run := perform_refresh env st in
  outcome run = Ok false /\
  access (self (final run)) = PNone /\
  refresh (self (final run)) = PNone /\
  disk (final run) = delete p (disk st) /\
  disk (final run) !! p = None /\
  (Unlinked p ∈ effects run <-> is_Some (disk st !! p)).
Proof.
  intros Hp Hrej run. unfold run.
  rewrite (perform_refresh_rejected_run env st p Hp Hrej). cbn.
  do 4 (split; [done|]). split; [apply lookup_delete_eq|].
  case_bool_decide as Hfile; split; try done.
  - intros _. do 2 right. left.
  - intros Hin. exfalso.
    apply elem_of_cons in Hin as [Hin|Hin]; [discriminate Hin|].
    apply elem_of_cons in Hin as [Hin|Hin]; [discriminate Hin|].
    by apply elem_of_nil in Hin.
Qed.

Lemma perform_refresh_rejected_clears_witness :
  let env := server unauthorized unauthorized ok_empty in
  let st := {| self := stale_client; disk := {[ creds_json := stale_file ]} |} in
  refresh_rejected (send env (refresh_request (self st))) /\
  outcome (perform_refresh env st) = Ok false /\
  access (self (final (perform_refresh env st))) = PNone /\
  refresh (self (final (perform_refresh env st))) = PNone /\
  disk (final (perform_refresh env st)) !! creds_json = None.
Proof.
  intros env st.
  assert (refresh_rejected (send env (refresh_request (self st)))) as Hrej.
  { right. exists (PDict []). split; reflexivity. }
  split; [exact Hrej|].
  destruct (perform_refresh_rejected_clears env st creds_json eq_refl Hrej)
    as (Hout & Ha & Hr & _ & Hfile & _).
  auto.
Defined.

(** C2, as stated, fails: when the [access] field of the 200 response is
    empty, [write_creds] skips the file.  The object below holds the refresh
    token [r1] and has no credentials file (it is the object that
    [__post_init__] builds when there is no file and the login response
    carries only a refresh token); after the refresh there is still no file,
    so no persisted refresh token. *)
Lemma perform_refresh_empty_access_no_file :
  let env := server (ok_refresh_only "r1") unauthorized (ok_access EmptyString) in
  let c := {| access := PNone; refresh := PStr "r1"; header_type := "Bearer";
              cred_path := Some creds_json |} in
  let st := {| self := c; disk := ∅ |} in
  post_init env {| self := fresh_client; disk := ∅ |}
    = (Ok tt, st, login_events env ++ [Printed "access granted"])%list /\
  truthy (refresh (self st)) = true /\
  status_code (send env (refresh_request (self st))) = 200 /\
  json (send env (refresh_request (self st))) = Some (PDict [("access", PStr EmptyString)]) /\
  outcome (perform_refresh env st) = Ok true /\
  disk (final (perform_refresh env st)) !! creds_json = None.
Proof. vm_compute. repeat split. Qed.

(** C2, amended.  On an object that has a credentials path and holds a
    refresh token, when the answer to the refresh request has status 200 and
    a JSON object body [d] with an [access] field, [perform_refresh] returns
    [True], leaves the refresh token in memory as it was and sets the access
    token to the value of the field.  If that value is non-empty, the
    credentials file then holds the new access token with the refresh token
    held before the call; if it is empty, the disk is left as it was. *)
Theorem perform_refresh_accepted_keeps_refresh env st p d :
  cred_path (self st) = Some p ->
  truthy (refresh (self st)) = true ->
  status_code (send env (refresh_request (self st))) = 200 ->
  json (send env (refresh_request (self st))) = Some (PDict d) ->
  dict_has d "access" = true ->
  let run := perform_refresh env st in
  outcome run = Ok true /\
  refresh (self (final run)) = refresh (self st) /\
  access (self (final run)) = dict_get d "access" /\
  (truthy (dict_get d "access") = true ->
     disk (final run) !! p
       = Some (Dumped (PDict [("access", dict_get d "access");
                              ("refresh", refresh (self st))])) /\
     forall q, q <> p -> disk (final run) !! q = disk st !! q) /\
  (truthy (dict_get d "access") = false -> disk (final run) = disk st).
Proof.
  intros Hp Hr Hst Hv Hin run. unfold run.
  rewrite (perform_refresh_accepted_run env st p d Hp Hst Hv Hin).
  rewrite (write_creds_run env st p _ Hp). cbn. rewrite Hr, andb_true_r.
  destruct (truthy (dict_get d "access")); cbn.
  - do 3 (split; [done|]). split; [|done]. intros _. split.
    + apply lookup_insert_eq.
    + intros q Hq. by apply lookup_insert_ne.
  - do 3 (split; [done|]). split; done.
Qed.

Lemma perform_refresh_accepted_keeps_refresh_witness :
  let env := server unauthorized unauthorized (ok_access "new") in
  let st := {| self := stale_client; disk := {[ creds_json := stale_file ]} |} in
  outcome (perform_refresh env st) = Ok true /\
  refresh (self (final (perform_refresh env st))) = PStr "r1" /\
  access (self (final (perform_refresh env st))) = PStr "new" /\
  disk (final (perform_refresh env st)) !! creds_json
    = Some (Dumped (PDict [("access", PStr "new"); ("refresh", PStr "r1")])).
Proof.
  intros env st.
  destruct (perform_refresh_accepted_keeps_refresh env st creds_json
              [("access", PStr "new")] eq_refl eq_refl eq_refl eq_refl eq_refl)
    as (Hout & Hr & Ha & Hfile & _).
  destruct (Hfile eq_refl) as [Hfile' _].
  auto.
Defined.

(** *** Initialization *)

(** C7, as stated, fails: the file exists and parses, the verify call is
    answered with 401, and the refresh call is answered with status 200 and
    a body that is not JSON, so without an [access] field.
    [__post_init__] then raises out of [r.json()]: it has not cleared the
    tokens, the file is still there, and the login exchange has not been made. *)
Lemma post_init_refresh_not_json_no_login :
  let env := server (ok_tokens "a2" "r2") unauthorized ok_not_json in
  let st := {| self := fresh_client; disk := {[ creds_json := stale_file ]} |} in
  let run := post_init env st in
  disk st !! creds_json
    = Some (Dumped (PDict [("access", PStr "bad"); ("refresh", PStr "r1")])) /\
  status_code (send env (verify_request stale_client)) = 401 /\
  status_code (send env (refresh_request stale_client)) = 200 /\
  json (send env (refresh_request stale_client)) = None /\
  outcome run = Raised JSONDecodeError /\
  logins (effects run) = 0%nat /\
  access (self (final run)) = PStr "bad" /\
  refresh (self (final run)) = PStr "r1" /\
  disk (final run) !! creds_json = Some stale_file.
Proof. vm_compute. repeat split. Qed.

(** C7, amended.  Let the credentials file exist and parse as the JSON
    object [d], so that [__post_init__] loads [d] and sends the verify
    request.
    - If the verify call fails (status other than 200) and the refresh call
      is refused (status other than 200, or status 200 with a JSON body in
      which [access] does not occur), then both tokens are cleared, the file
      is removed, and from that state [perform_auth] is run: the login
      exchange is made exactly once in the whole run, and if it is refused
      the run ends in the cleared state.
    - If the verify call succeeds, or if it fails and the refresh call is
      answered with status 200 and a JSON object that has an [access] field,
      [__post_init__] returns without making the login exchange. *)
Theorem post_init_login_exactly_when_both_fail env st p d :
  cred_path (self st) = Some p ->
  disk st !! p = Some (Dumped (PDict d)) ->
  let vr := send env (verify_request (self (loaded d st))) in
  let rr := send env (refresh_request (self (loaded d st))) in
  let cleared :=
    {| self := with_tokens PNone PNone (self st); disk := delete p (disk st) |} in
  let run := post_init env st in
  (status_code vr <> 200 -> refresh_rejected rr ->
     (exists evs,
        effects run = (evs ++ effects (perform_auth env cleared))%list /\
        Unlinked p ∈ evs /\ logins evs = 0%nat) /\
     outcome run = outcome (perform_auth env cleared) /\
     final run = final (perform_auth env cleared) /\
     access (self cleared) = PNone /\ refresh (self cleared) = PNone /\
     disk cleared !! p = None /\
     logins (effects run) = 1%nat /\
     (status_code (send env (login_request env)) <> 200 -> final run = cleared)) /\
  (status_code vr = 200 ->
     outcome run = Ok tt /\ logins (effects run) = 0%nat) /\
  (forall d', status_code vr <> 200 -> status_code rr = 200 ->
     json rr = Some (PDict d') -> dict_has d' "access" = true ->
     outcome run = Ok tt /\ logins (effects run) = 0%nat).
Proof.
  intros Hp Hf vr rr cleared run. split; [|split].
  - intros Hv Hrej. unfold run.
    rewrite (post_init_relogin_run env st p d Hp Hf Hv Hrej). fold cleared.
    match goal with |- context [([?a; ?b; ?c; ?d; ?e] ++ _)%list] =>
      set (pre := [a; b; c; d; e]) end.
    assert (Unlinked p ∈ pre) as Hun by (do 3 right; left).
    assert (logins pre = 0%nat) as Hpre by reflexivity.
    clearbody pre.
    pose proof (perform_auth_logins env cleared) as Hone.
    pose proof (perform_auth_denied_run env cleared) as Hdenied.
    destruct (perform_auth env cleared) as [[res st'] evs].
    unfold outcome, final, effects in *; cbn [fst snd] in *.
    split; [by exists pre|].
    do 2 (split; [reflexivity|]). do 2 (split; [reflexivity|]).
    split; [apply lookup_delete_eq|]. split.
    + by rewrite logins_app, Hone, Hpre.
    + intros Hl. specialize (Hdenied Hl). congruence.
  - intros Hv. unfold run. by rewrite (post_init_verified_run env st p d Hp Hf Hv).
  - intros d' Hv Hst Hj Hin. unfold run.
    rewrite (post_init_refreshed_run env st p d d' Hp Hf Hv Hst Hj Hin).
    pose proof (logins_write_creds env (loaded d st)
                  (PDict [("access", dict_get d' "access");
                          ("refresh", dict_get d "refresh")])) as Hnone.
    destruct (write_creds _ env (loaded d st)) as [[res st'] evs].
    unfold outcome, final, effects in *; cbn [fst snd] in *.
    split; [reflexivity|].
    change (?a :: ?b :: ?c :: evs) with ([a; b; c] ++ evs)%list.
    by rewrite logins_app, Hnone.
Qed.

Lemma post_init_login_exactly_when_both_fail_witness :
  let env := server (ok_tokens "a2" "r2") unauthorized unauthorized in
  let st := {| self := fresh_client; disk := {[ creds_json := stale_file ]} |} in
  status_code (send env (verify_request stale_client)) <> 200 /\
  refresh_rejected (send env (refresh_request stale_client)) /\
  logins (effects (post_init env st)) = 1%nat /\
  outcome (post_init env st) = Ok tt.
Proof.
  intros env st.
  assert (status_code (send env (verify_request stale_client)) <> 200) as Hv by discriminate.
  assert (refresh_rejected (send env (refresh_request stale_client))) as Hrej
    by (left; discriminate).
  destruct (post_init_login_exactly_when_both_fail env st creds_json
              [("access", PStr "bad"); ("refresh", PStr "r1")] eq_refl eq_refl)
    as [Hboth _].
  destruct (Hboth Hv Hrej) as (_ & Hout & _ & _ & _ & _ & Hlogins & _).
  split; [exact Hv|]. split; [exact Hrej|]. split; [exact Hlogins|].
  rewrite Hout. reflexivity.
Defined.

(** The scenario of the specification: the file holds the access token
    [bad] and the refresh token [r1], the verify call is answered 401, and
    the refresh call 200 with the access token [new].  The file then holds
    [new] and [r1], and the header is [Bearer new]. *)
Example refresh_scenario :
  let env := server unauthorized unauthorized (ok_access "new") in
  let st := {| self := fresh_client; disk := {[ creds_json := stale_file ]} |} in
  outcome (post_init env st) = Ok tt /\
  disk (final (post_init env st))
    = {[ creds_json := Dumped (PDict [("access", PStr "new"); ("refresh", PStr "r1")]) ]} /\
  get_headers (self (final (post_init env st))) None
    = {[ "Authorization" := "Bearer new" ]} /\
  logins (effects (post_init env st)) = 0%nat.
Proof. intros env st. split_and!; vm_compute; reflexivity. Qed.

(** *** The pairing of the tokens *)

(** C1, as stated, fails: [write_creds] stores whatever the mapping holds.
    With no credentials file, [__post_init__] logs in; if the 200 response
    carries a refresh token and no access token, the object it builds has
    the access token absent and the refresh token present. *)
Lemma reachable_refresh_without_access :
  let st := {| self := {| access := PNone; refresh := PStr "r1"; header_type := "Bearer";
                          cred_path := Some creds_json |};
               disk := ∅ |} in
  reachable st /\ access (self st) = PNone /\ refresh (self st) <> PNone.
Proof.
  intros st. split; [|split; [reflexivity|discriminate]].
  apply (reach_init _ _ (server (ok_refresh_only "r1") unauthorized unauthorized)
           fresh_client ∅ st
           (login_events (server (ok_refresh_only "r1") unauthorized unauthorized)
              ++ [Printed "access granted"])%list); [exact I|done|].
  vm_compute. reflexivity.
Qed.

(** C1, amended.  Provided every mapping that the object takes its tokens
    from has an access token whenever it has a refresh token (the content of
    the credentials file at initialization, the argument of [write_creds],
    the JSON bodies of the server's responses) and no response carries a
    null [access], in every state reachable through initialization, login,
    verify, refresh, persist, clear and list, an absent access token comes
    with an absent refresh token. *)
Theorem reachable_paired_tokens st :
  reachable_paired st ->
  access (self st) = PNone -> refresh (self st) = PNone.
Proof.
  intros Hreach. change (tokens_paired st).
  induction Hreach as [env c dk st evs Henv Hfile Hrun | env o st Henv Hdata _ IH].
  - by apply (post_init_paired env Henv c dk st evs).
  - by apply run_op_paired.
Qed.

Lemma reachable_paired_tokens_witness :
  let env := server (ok_tokens "a1" "r1") unauthorized unauthorized in
  let st0 := final (post_init env {| self := fresh_client; disk := ∅ |}) in
  let st := final (run_op OpClear env st0) in
  access (self st0) = PStr "a1" /\
  reachable_paired st /\ access (self st) = PNone /\ refresh (self st) = PNone.
Proof.
  intros env st0 st.
  assert (pairing_server env) as Henv.
  { intros rq d Hd Ha. revert Hd. cbn.
    repeat (destruct (String.eqb _ _)); cbn; intros [= <-]; discriminate Ha. }
  assert (reachable_paired st) as Hreach.
  { apply reach_op; [exact Henv|discriminate|].
    apply (reach_init _ _ env fresh_client ∅ st0
             (effects (post_init env {| self := fresh_client; disk := ∅ |})));
      [exact Henv|done|].
    vm_compute. reflexivity. }
  split; [reflexivity|]. split; [exact Hreach|]. split; [reflexivity|].
  apply (reachable_paired_tokens st Hreach). reflexivity.
Defined.

(** ** Further properties of the methods *)

(** *** Clearing *)

(** X1.  [clear_tokens] is idempotent: on an object that has a credentials
    path, a second call right after a first returns normally, changes
    neither the object nor the disk, and has no effect at all; after the
    first call both tokens are [None] and the file is gone. *)
Theorem clear_tokens_idempotent env env' st p :
  cred_path (self st) = Some p ->
  let once := clear_tokens env st in
  let twice := clear_tokens env' (final once) in
  outcome once = Ok tt /\
  access (self (final once)) = PNone /\
  refresh (self (final once)) = PNone /\
  disk (final once) !! p = None /\
  outcome twice = Ok tt /\
  final twice = final once /\
  effects twice = [].
Proof.
  intros Hp once twice. unfold twice, once.
  rewrite (clear_tokens_run env st p Hp). rewrite final_triple, outcome_triple.
  erewrite clear_tokens_run by exact Hp. cbn [self disk].
  rewrite lookup_delete_eq, delete_delete_eq.
  rewrite bool_decide_eq_false_2 by (by intros [? ?]).
  done.
Qed.

Lemma clear_tokens_idempotent_witness :
  let env := server unauthorized unauthorized unauthorized in
  let st := {| self := stale_client; disk := {[ creds_json := stale_file ]} |} in
  effects (clear_tokens env st) = [Unlinked creds_json] /\
  effects (clear_tokens env (final (clear_tokens env st))) = [] /\
  final (clear_tokens env (final (clear_tokens env st))) = final (clear_tokens env st).
Proof.
  intros env st.
  destruct (clear_tokens_idempotent env env st creds_json eq_refl)
    as (_ & _ & _ & _ & _ & Hsame & Hnone).
  split; [reflexivity|]. split; [exact Hnone | exact Hsame].
Defined.

(** X2.  On an object without a credentials path, [clear_tokens] raises
    [AttributeError] (from [self.cred_path.exists()]), but only after it has
    set both tokens to [None]: the tokens are cleared all the same, and the
    disk is untouched. *)
Theorem clear_tokens_without_path env st :
  cred_path (self st) = None ->
  clear_tokens env st =
    (Raised AttributeError,
     {| self := with_tokens PNone PNone (self st); disk := disk st |}, []).
Proof.
  intros Hp. destruct st as [[a r h cp] dk]; simpl in *; subst cp. reflexivity.
Qed.

Lemma clear_tokens_without_path_witness :
  let c := {| access := PStr "a"; refresh := PStr "r"; header_type := "Bearer";
              cred_path := None |} in
  let run := clear_tokens (server unauthorized unauthorized unauthorized)
               {| self := c; disk := ∅ |} in
  outcome run = Raised AttributeError /\
  access (self (final run)) = PNone /\ refresh (self (final run)) = PNone.
Proof.
  intros c run. unfold run.
  rewrite (clear_tokens_without_path _ {| self := c; disk := ∅ |} eq_refl).
  repeat split.
Defined.

(** *** Persisting *)

(** X3.  [write_creds] on a value that is not a mapping (a list, a string, a
    number, a boolean, [None]) raises [AttributeError] out of the first
    [data.get] when the object has a credentials path: no token is assigned
    and nothing is written.  Without a credentials path it does nothing at
    all and returns normally, whatever the value. *)
Theorem write_creds_not_a_mapping env st data :
  (forall d, data <> PDict d) ->
  (is_Some (cred_path (self st)) ->
     write_creds data env st = (Raised AttributeError, st, [])) /\
  (cred_path (self st) = None ->
     write_creds data env st = (Ok tt, st, [])).
Proof.
  intros Hd. split.
  - intros [p Hp]. by apply (write_creds_not_dict env st p).
  - apply write_creds_no_path.
Qed.

Lemma write_creds_not_a_mapping_witness :
  let st := {| self := stale_client; disk := {[ creds_json := stale_file ]} |} in
  write_creds (PList [PStr "access"]) (server unauthorized unauthorized unauthorized) st
    = (Raised AttributeError, st, []).
Proof.
  intros st.
  destruct (write_creds_not_a_mapping (server unauthorized unauthorized unauthorized)
              st (PList [PStr "access"])) as [Hraise _]; [discriminate|].
  apply Hraise. by exists creds_json.
Defined.

(** *** Listing *)

Lemma list_run env st endpoint limit :
  let url := match endpoint with
             | Some e => if str_in base_endpoint e then e else products_url limit
             | None => products_url limit
             end in
  let rq := {| rq_method := GET; rq_url := url; rq_json := None;
               rq_headers := get_headers (self st) None |} in
  list_ endpoint limit env st =
    (if status_code (send env rq) =? 200 then
       match json (send env rq) with
       | Some v => Ok v
       | None => Raised JSONDecodeError
       end
     else Raised (Exception ("Request not complete " +:+ text (send env rq))),
     st, [Sent rq (send env rq)]).
Proof.
  intros url rq. unfold list_. cbn.
  replace (match endpoint with
           | Some e => if negb (str_in base_endpoint e) then _ else e
           | None => _
           end) with url
    by (unfold url, products_url; destruct endpoint as [e|]; [destruct (str_in _ e)|]; done).
  fold rq. destruct (status_code (send env rq) =? 200); cbn; [|reflexivity].
  unfold response_json. destruct (json (send env rq)); reflexivity.
Qed.

(** X4.  [list] changes neither the object nor the disk, whatever the
    answer.  It returns the parsed JSON body of a 200 answer; on any other
    status it raises the exception whose message is [Request not complete ]
    followed by the text of the response; and on a 200 answer whose body is
    not JSON it raises out of [r.json()]. *)
Theorem list_returns_body_or_raises env st endpoint limit :
  exists rq,
    effects (list_ endpoint limit env st) = [Sent rq (send env rq)] /\
    final (list_ endpoint limit env st) = st /\
    (status_code (send env rq) <> 200 ->
       outcome (list_ endpoint limit env st)
         = Raised (Exception ("Request not complete " +:+ text (send env rq)))) /\
    (forall v, status_code (send env rq) = 200 -> json (send env rq) = Some v ->
       outcome (list_ endpoint limit env st) = Ok v) /\
    (status_code (send env rq) = 200 -> json (send env rq) = None ->
       outcome (list_ endpoint limit env st) = Raised JSONDecodeError).
Proof.
  eexists. rewrite list_run. cbn [effects final outcome fst snd].
  split; [reflexivity|]. split; [reflexivity|].
  split; [|split].
  - intros Hst. apply Z.eqb_neq in Hst. by rewrite Hst.
  - intros v -> ->. reflexivity.
  - intros -> ->. reflexivity.
Qed.

Lemma list_returns_body_or_raises_witness :
  let env := server unauthorized unauthorized unauthorized in
  let st := {| self := stale_client; disk := ∅ |} in
  outcome (list_ None 3 env st) = Raised (Exception "Request not complete Not Found") /\
  final (list_ None 3 env st) = st.
Proof.
  intros env st.
  destruct (list_returns_body_or_raises env st None 3)
    as (rq & Hevs & Hfin & Hraise & _).
  injection Hevs as <-.
  split; [|exact Hfin]. rewrite Hraise; [reflexivity|discriminate].
Defined.

(** X5.  The request of [list] is a GET without a body that carries the
    authorization header of the access token held at that moment, with the
    configured scheme; when no access token is held the request is sent all
    the same, without any header. *)
Theorem list_attaches_current_token env st endpoint limit :
  exists rq rs,
    effects (list_ endpoint limit env st) = [Sent rq rs] /\
    rq_method rq = GET /\
    rq_json rq = None /\
    (truthy (access (self st)) = true ->
       rq_headers rq
         = {[ "Authorization" := header_type (self st) +:+ " " +:+ py_str (access (self st)) ]}) /\
    (truthy (access (self st)) = false -> rq_headers rq = ∅).
Proof.
  do 2 eexists. rewrite list_run. cbn [effects snd].
  split; [reflexivity|]. cbn. unfold get_headers.
  do 2 (split; [reflexivity|]).
  split; intros ->; reflexivity.
Qed.

Lemma list_attaches_current_token_witness :
  exists rq rs,
    effects (list_ None 3 (server unauthorized unauthorized unauthorized)
               {| self := fresh_client; disk := ∅ |}) = [Sent rq rs] /\
    rq_headers rq = ∅.
Proof.
  destruct (list_attaches_current_token (server unauthorized unauthorized unauthorized)
              {| self := fresh_client; disk := ∅ |} None 3)
    as (rq & rs & Hevs & _ & _ & _ & Hnone).
  exists rq, rs. split; [exact Hevs|]. apply Hnone. reflexivity.
Defined.

(** *** Initialization, case by case *)

Lemma perform_auth_sent env st rq rs :
  Sent rq rs ∈ effects (perform_auth env st) ->
  rq = login_request env /\ rs = send env (login_request env).
Proof.
  assert (forall evs, Sent rq rs ∈ (login_events env ++ evs)%list ->
            (forall e, e ∈ evs -> is_sent e = false) ->
            rq = login_request env /\ rs = send env (login_request env)) as Hin.
  { intros evs [Hl|Hr]%elem_of_app Hevs.
    - unfold login_events in Hl.
      apply elem_of_cons in Hl as [Hl|Hl]; [discriminate Hl|].
      apply elem_of_cons in Hl as [Hl|Hl]; [discriminate Hl|].
      apply list_elem_of_singleton in Hl. by injection Hl as -> ->.
    - by apply Hevs in Hr. }
  destruct (decide (status_code (send env (login_request env)) = 200)) as [Hst|Hst].
  - destruct (json (send env (login_request env))) as [data|] eqn:Hv.
    + rewrite (perform_auth_granted_run env st data Hst Hv), effects_triple.
      intros H. apply (Hin _ H). intros e [->|He]%elem_of_cons; [done|].
      by apply write_creds_effects in He as (p & _ & ->).
    + rewrite (perform_auth_not_json_run env st Hst Hv), effects_triple.
      intros H. apply (Hin _ H). by intros e ->%list_elem_of_singleton.
  - rewrite (perform_auth_denied_run env st Hst), effects_triple.
    intros H. apply (Hin []); [by rewrite app_nil_r|]. by intros e ?%elem_of_nil.
Qed.

(** X6.  With a credentials path and no file at it, [__post_init__] is
    exactly [perform_auth]: the login exchange is made once, and neither the
    verify nor the refresh request is sent (the login request is the only
    one). *)
Theorem post_init_without_file_only_logs_in env st p :
  cred_path (self st) = Some p ->
  disk st !! p = None ->
  post_init env st = perform_auth env st /\
  logins (effects (post_init env st)) = 1%nat /\
  (forall rq rs, Sent rq rs ∈ effects (post_init env st) -> rq = login_request env).
Proof.
  intros Hp Hf. rewrite (post_init_no_file env st p Hp Hf).
  split; [reflexivity|]. split; [apply perform_auth_logins|].
  intros rq rs H. by apply perform_auth_sent in H as [-> _].
Qed.

Lemma post_init_without_file_only_logs_in_witness :
  let env := server (ok_tokens "a1" "r1") unauthorized unauthorized in
  let st := {| self := fresh_client; disk := ∅ |} in
  post_init env st = perform_auth env st /\
  access (self (final (post_init env st))) = PStr "a1".
Proof.
  intros env st.
  destruct (post_init_without_file_only_logs_in env st creds_json eq_refl eq_refl)
    as (Heq & _ & _).
  split; [exact Heq|]. rewrite Heq. reflexivity.
Defined.

(** X7.  When the credentials file does not parse, or parses as JSON
    [null], [__post_init__] discards the tokens the object was built with,
    removes the file, and runs [perform_auth] from that cleared state; it
    prints the tampering message only when the file does not parse.  The
    verify and refresh requests are not sent. *)
Theorem post_init_unusable_file_relogs env st p :
  cred_path (self st) = Some p ->
  (exists s, disk st !! p = Some (Garbled s)) \/ disk st !! p = Some (Dumped PNone) ->
  let cleared :=
    {| self := with_tokens PNone PNone (self st); disk := delete p (disk st) |} in
  let run := post_init env st in
  outcome run = outcome (perform_auth env cleared) /\
  final run = final (perform_auth env cleared) /\
  effects run =
    ((if disk st !! p is Some (Garbled _)
      then [Printed "Assuming creds has been tampered with"] else [])
     ++ Unlinked p :: effects (perform_auth env cleared))%list /\
  logins (effects run) = 1%nat /\
  (forall rq rs, Sent rq rs ∈ effects run -> rq = login_request env).
Proof.
  intros Hp Hf cleared run.
  assert (final (clear_tokens env st) = cleared) as Hc
    by (by rewrite (clear_tokens_run env st p Hp)).
  assert (exists pre,
            run = (outcome (perform_auth env cleared), final (perform_auth env cleared),
                   pre ++ Unlinked p :: effects (perform_auth env cleared))%list /\
            pre = (if disk st !! p is Some (Garbled _)
                   then [Printed "Assuming creds has been tampered with"] else []) /\
            forall e, e ∈ pre -> is_sent e = false /\ is_login e = false)
    as (pre & -> & Hpre & Hquiet).
  { unfold run. destruct Hf as [[s Hf] | Hf].
    - rewrite (post_init_tampered env st p Hp) by eauto. rewrite Hc, Hf.
      exists [Printed "Assuming creds has been tampered with"].
      split; [reflexivity|]. split; [reflexivity|].
      by intros e ->%list_elem_of_singleton.
    - rewrite (post_init_null env st p Hp Hf). rewrite Hc, Hf.
      exists []. split; [reflexivity|]. split; [reflexivity|].
      by intros e ?%elem_of_nil. }
  rewrite outcome_triple, final_triple, effects_triple, <- Hpre.
  do 3 (split; [reflexivity|]). split.
  - rewrite logins_app.
    change (Unlinked p :: ?l) with ([Unlinked p] ++ l)%list.
    rewrite logins_app, perform_auth_logins.
    rewrite (logins_none pre) by (intros e He; by apply Hquiet). reflexivity.
  - intros rq rs [H|H]%elem_of_app.
    + by apply Hquiet in H as [? _].
    + apply elem_of_cons in H as [H|H]; [discriminate H|].
      by apply perform_auth_sent in H as [-> _].
Qed.

Lemma post_init_unusable_file_relogs_witness :
  let env := server (ok_tokens "a1" "r1") unauthorized unauthorized in
  let st := {| self := stale_client; disk := {[ creds_json := Garbled "{oops" ]} |} in
  logins (effects (post_init env st)) = 1%nat /\
  final (post_init env st)
    = final (perform_auth env {| self := fresh_client; disk := ∅ |}).
Proof.
  intros env st.
  destruct (post_init_unusable_file_relogs env st creds_json eq_refl)
    as (_ & Hfin & _ & Hlogins & _).
  { left. by exists "{oops". }
  split; [exact Hlogins|]. rewrite Hfin. reflexivity.
Defined.

(** X8.  When the credentials file parses as a JSON object and the verify
    call is answered 200, [__post_init__] sends that one request and nothing
    else: it returns with the tokens of the file in memory, whatever tokens
    the object was built with, and leaves the disk as it was. *)
Theorem post_init_verified_loads_file env st p d :
  cred_path (self st) = Some p ->
  disk st !! p = Some (Dumped (PDict d)) ->
  status_code (send env (verify_request (self (loaded d st)))) = 200 ->
  let run := post_init env st in
  outcome run = Ok tt /\
  access (self (final run)) = dict_get d "access" /\
  refresh (self (final run)) = dict_get d "refresh" /\
  disk (final run) = disk st /\
  effects run =
    [Sent (verify_request (self (loaded d st)))
       (send env (verify_request (self (loaded d st))))].
Proof.
  intros Hp Hf Hv run. unfold run.
  by rewrite (post_init_verified_run env st p d Hp Hf Hv).
Qed.

Lemma post_init_verified_loads_file_witness :
  let env := server unauthorized ok_empty unauthorized in
  let st := {| self := fresh_client; disk := {[ creds_json := stale_file ]} |} in
  access (self (final (post_init env st))) = PStr "bad" /\
  refresh (self (final (post_init env st))) = PStr "r1".
Proof.
  intros env st.
  destruct (post_init_verified_loads_file env st creds_json
              [("access", PStr "bad"); ("refresh", PStr "r1")] eq_refl eq_refl eq_refl)
    as (_ & Ha & Hr & _).
  split; [exact Ha | exact Hr].
Defined.

(** X9.  When the credentials file parses as JSON that is neither an object
    nor [null] (a list, a string, a number, a boolean), [__post_init__]
    raises [AttributeError] out of [data.get]: no request is sent, nothing is
    printed, and the file is not removed, so the next start meets the same
    file. *)
Theorem post_init_file_not_an_object env st p v :
  cred_path (self st) = Some p ->
  disk st !! p = Some (Dumped v) ->
  v <> PNone ->
  (forall d, v <> PDict d) ->
  post_init env st = (Raised AttributeError, st, []) /\
  disk (final (post_init env st)) !! p = Some (Dumped v).
Proof.
  intros Hp Hf Hnone Hdict.
  by rewrite (post_init_not_a_dict env st p v Hp Hf Hnone Hdict).
Qed.

Lemma post_init_file_not_an_object_witness :
  let env := server (ok_tokens "a1" "r1") ok_empty ok_empty in
  let st := {| self := fresh_client; disk := {[ creds_json := Dumped (PList []) ]} |} in
  post_init env st = (Raised AttributeError, st, []).
Proof.
  intros env st.
  destruct (post_init_file_not_an_object env st creds_json (PList []) eq_refl eq_refl)
    as [Hrun _]; [discriminate|discriminate|exact Hrun].
Defined.

(** X10.  When the file parses as the object [d], the verify call fails and
    the refresh call is answered 200 with an object that has an [access]
    field, [__post_init__] returns with the new access token and the refresh
    token of the file in memory.  If both are non-empty the file is
    rewritten to hold exactly these two fields (any other field of [d] is
    dropped); otherwise the disk is left as it was. *)
Theorem post_init_refreshed_state env st p d d' :
  cred_path (self st) = Some p ->
  disk st !! p = Some (Dumped (PDict d)) ->
  status_code (send env (verify_request (self (loaded d st)))) <> 200 ->
  status_code (send env (refresh_request (self (loaded d st)))) = 200 ->
  json (send env (refresh_request (self (loaded d st)))) = Some (PDict d') ->
  dict_has d' "access" = true ->
  let run := post_init env st in
  let a := dict_get d' "access" in
  let r := dict_get d "refresh" in
  outcome run = Ok tt /\
  access (self (final run)) = a /\
  refresh (self (final run)) = r /\
  disk (final run) =
    (if truthy a && truthy r
     then <[p := Dumped (PDict [("access", a); ("refresh", r)])]> (disk st)
     else disk st).
Proof.
  intros Hp Hf Hv Hst Hj Hin run a r. unfold run.
  rewrite (post_init_refreshed_run env st p d d' Hp Hf Hv Hst Hj Hin).
  rewrite (write_creds_run env (loaded d st) p _ Hp).
  subst a r.
  change (dict_get [("access", ?x); ("refresh", ?y)] "access") with x.
  change (dict_get [("access", ?x); ("refresh", ?y)] "refresh") with y.
  by destruct (truthy _ && truthy _).
Qed.

Lemma post_init_refreshed_state_witness :
  let env := server unauthorized unauthorized (ok_access "new") in
  let st := {| self := fresh_client;
               disk := {[ creds_json :=
                 Dumped (PDict [("access", PStr "bad"); ("refresh", PStr "r1");
                                ("user", PStr "staff")]) ]} |} in
  disk (final (post_init env st)) !! creds_json
    = Some (Dumped (PDict [("access", PStr "new"); ("refresh", PStr "r1")])).
Proof.
  intros env st.
  destruct (post_init_refreshed_state env st creds_json
              [("access", PStr "bad"); ("refresh", PStr "r1"); ("user", PStr "staff")]
              [("access", PStr "new")] eq_refl eq_refl)
    as (_ & _ & _ & Hdisk); [discriminate|reflexivity|reflexivity|reflexivity|].
  rewrite Hdisk. reflexivity.
Defined.

(** *** What the operations leave alone *)

(** X11.  No operation assigns the credentials path or the header scheme:
    after [__post_init__] and after every public operation, whatever its
    outcome, the object has the path and the scheme it had before. *)
Theorem operations_keep_configuration env st :
  (cred_path (self (final (post_init env st))) = cred_path (self st) /\
   header_type (self (final (post_init env st))) = header_type (self st)) /\
  (forall o,
     cred_path (self (final (run_op o env st))) = cred_path (self st) /\
     header_type (self (final (run_op o env st))) = header_type (self st)).
Proof.
  split; [apply keeps_config_post_init|]. intros o. apply keeps_config_run_op.
Qed.

(** X12.  Every object that has been built has a credentials path, in every
    state it can reach: [__post_init__] raises [AttributeError] at once on
    an object without one, and no operation removes it. *)
Theorem built_client_has_path st :
  reachable st ->
  exists p, cred_path (self st) = Some p.
Proof. intros Hr. apply (reachable_has_path _ _ st Hr). Qed.

Lemma built_client_has_path_witness :
  let env := server (ok_tokens "a1" "r1") unauthorized unauthorized in
  let st := final (run_op OpRefresh env
                     (final (post_init env {| self := fresh_client; disk := ∅ |}))) in
  reachable st /\ cred_path (self st) = Some creds_json.
Proof.
  intros env st.
  assert (reachable st) as Hr.
  { apply reach_op; [exact I|done|].
    apply (reach_init _ _ env fresh_client ∅ _
             (effects (post_init env {| self := fresh_client; disk := ∅ |})));
      [exact I|done|].
    vm_compute. reflexivity. }
  split; [exact Hr|].
  destruct (built_client_has_path st Hr) as [p Hp].
  reflexivity.
Defined.

(** The three properties below are kept by every step of a method, so by
    the method. *)

Lemma keeps_other_files_bind {A B} (m : M A) (k : A -> M B) :
  keeps_config m -> keeps_other_files m -> (forall a, keeps_other_files (k a)) ->
  keeps_other_files (bind m k).
Proof.
  intros Hc Hm Hk env st q Hq. rewrite bind_eq.
  specialize (Hm env st q Hq). destruct (Hc env st) as [Hpath _].
  destruct (m env st) as [[[a|e] st1] evs1]; rewrite final_triple in *; [|exact Hm].
  specialize (Hk a env st1 q).
  destruct (k a env st1) as [[r st2] evs2]. rewrite final_triple in *.
  rewrite Hk; [exact Hm|]. by rewrite Hpath.
Qed.

Lemma removes_nothing_bind {A B} (m : M A) (k : A -> M B) :
  removes_nothing m -> (forall a, removes_nothing (k a)) -> removes_nothing (bind m k).
Proof.
  intros Hm Hk env st q Hq. rewrite bind_eq.
  specialize (Hm env st q Hq).
  destruct (m env st) as [[[a|e] st1] evs1]; rewrite final_triple in *; [|exact Hm].
  specialize (Hk a env st1 q Hm).
  by destruct (k a env st1) as [[r st2] evs2].
Qed.

Lemma quiet_bind {A B} (m : M A) (k : A -> M B) :
  quiet m -> (forall a, quiet (k a)) -> quiet (bind m k).
Proof.
  intros Hm Hk env st e. rewrite bind_eq.
  specialize (Hm env st). 
  destruct (m env st) as [[[a|x] st1] evs1]; rewrite effects_triple in *; [|apply Hm].
  specialize (Hk a env st1).
  destruct (k a env st1) as [[r st2] evs2]. rewrite effects_triple in *.
  intros [H|H]%elem_of_app; auto.
Qed.

Lemma keeps_other_files_if {A} (b : bool) (m1 m2 : M A) :
  keeps_other_files m1 -> keeps_other_files m2 ->
  keeps_other_files (if b then m1 else m2).
Proof. intros H1 H2. by destruct b. Qed.

Lemma removes_nothing_if {A} (b : bool) (m1 m2 : M A) :
  removes_nothing m1 -> removes_nothing m2 -> removes_nothing (if b then m1 else m2).
Proof. intros H1 H2. by destruct b. Qed.

Lemma quiet_if {A} (b : bool) (m1 m2 : M A) :
  quiet m1 -> quiet m2 -> quiet (if b then m1 else m2).
Proof. intros H1 H2. by destruct b. Qed.

(** The steps: each primitive of the model, by computation. *)
Ltac unfold_step :=
  unfold load_creds, path_exists, path_unlink, path_write_dumps, py_contains, py_get,
    response_json, requests_post, requests_get, py_print, py_input, py_getpass, emit,
    set_access, set_refresh, get_self, raise, ret.

Ltac other_files_step :=
  let q := fresh "q" in
  let Hq := fresh "Hq" in
  intros ? [[? ? ? [?|]] ?] q Hq; unfold_step; cbn in *; repeat case_match; cbn;
  rewrite ?lookup_delete_ne, ?lookup_insert_ne by congruence; reflexivity.

Ltac removes_nothing_step :=
  let q := fresh "q" in
  let Hq := fresh "Hq" in
  intros ? [[? ? ? [?|]] ?] q Hq; unfold_step; cbn in *; repeat case_match; cbn;
  first
    [ exact Hq
    | match goal with
      | |- is_Some (<[?p := _]> _ !! q) =>
          destruct (decide (p = q)) as [->|];
          [ rewrite lookup_insert_eq; eauto
          | rewrite lookup_insert_ne by done; exact Hq ]
      end ].

Ltac quiet_step :=
  let e := fresh "e" in
  let He := fresh "He" in
  intros ? [[? ? ? [?|]] ?] e; unfold_step; cbn; repeat case_match; cbn; intros He;
  first [ by apply elem_of_nil in He
        | apply list_elem_of_singleton in He; subst e; split; reflexivity ].

Ltac walk bind_lemma if_lemma step :=
  repeat first
    [ apply bind_lemma; [..|intros ?]
    | apply if_lemma
    | match goal with |- _ (match ?x with _ => _ end) => destruct x end
    | solve [auto with config]
    | solve [step] ].

Lemma keeps_other_files_write_creds data : keeps_other_files (write_creds data).
Proof.
  unfold write_creds. walk @keeps_other_files_bind @keeps_other_files_if other_files_step.
Qed.

Lemma keeps_other_files_clear_tokens : keeps_other_files clear_tokens.
Proof.
  unfold clear_tokens. walk @keeps_other_files_bind @keeps_other_files_if other_files_step.
Qed.

#[local] Hint Resolve keeps_other_files_write_creds keeps_other_files_clear_tokens : config.

Lemma keeps_other_files_perform_auth : keeps_other_files perform_auth.
Proof.
  unfold perform_auth. walk @keeps_other_files_bind @keeps_other_files_if other_files_step.
Qed.

Lemma keeps_other_files_verify_token : keeps_other_files verify_token.
Proof.
  unfold verify_token. walk @keeps_other_files_bind @keeps_other_files_if other_files_step.
Qed.

Lemma keeps_other_files_perform_refresh : keeps_other_files perform_refresh.
Proof.
  unfold perform_refresh. walk @keeps_other_files_bind @keeps_other_files_if other_files_step.
Qed.

Lemma keeps_other_files_list endpoint limit : keeps_other_files (list_ endpoint limit).
Proof.
  unfold list_. walk @keeps_other_files_bind @keeps_other_files_if other_files_step.
Qed.

#[local] Hint Resolve keeps_other_files_perform_auth keeps_other_files_verify_token
  keeps_other_files_perform_refresh keeps_other_files_list : config.

Lemma keeps_other_files_post_init : keeps_other_files post_init.
Proof.
  unfold post_init. walk @keeps_other_files_bind @keeps_other_files_if other_files_step.
Qed.

Lemma keeps_other_files_run_op o : keeps_other_files (run_op o).
Proof.
  destruct o; cbn [run_op];
    walk @keeps_other_files_bind @keeps_other_files_if other_files_step.
Qed.

(** X13.  [__post_init__] and the operations touch no file but the one at
    the credentials path: every other path holds after the run what it held
    before, whatever the outcome. *)
Theorem operations_keep_other_files env st q :
  cred_path (self st) <> Some q ->
  disk (final (post_init env st)) !! q = disk st !! q /\
  (forall o, disk (final (run_op o env st)) !! q = disk st !! q).
Proof.
  intros Hq. split; [by apply keeps_other_files_post_init|].
  intros o. by apply keeps_other_files_run_op.
Qed.

Lemma operations_keep_other_files_witness :
  let env := server unauthorized unauthorized unauthorized in
  let st := {| self := stale_client;
               disk := {[ creds_json := stale_file; "notes.txt" := Garbled "keep" ]} |} in
  disk (final (post_init env st)) !! creds_json = None /\
  disk (final (post_init env st)) !! "notes.txt" = Some (Garbled "keep").
Proof.
  intros env st.
  destruct (operations_keep_other_files env st "notes.txt") as [Hinit _]; [discriminate|].
  split; [reflexivity|]. rewrite Hinit. reflexivity.
Defined.

Lemma removes_nothing_write_creds data : removes_nothing (write_creds data).
Proof.
  unfold write_creds. walk @removes_nothing_bind @removes_nothing_if removes_nothing_step.
Qed.

#[local] Hint Resolve removes_nothing_write_creds : config.

Lemma removes_nothing_perform_auth : removes_nothing perform_auth.
Proof.
  unfold perform_auth. walk @removes_nothing_bind @removes_nothing_if removes_nothing_step.
Qed.

Lemma removes_nothing_verify_token : removes_nothing verify_token.
Proof.
  unfold verify_token. walk @removes_nothing_bind @removes_nothing_if removes_nothing_step.
Qed.

Lemma removes_nothing_list endpoint limit : removes_nothing (list_ endpoint limit).
Proof.
  unfold list_. walk @removes_nothing_bind @removes_nothing_if removes_nothing_step.
Qed.

#[local] Hint Resolve removes_nothing_perform_auth removes_nothing_verify_token
  removes_nothing_list : config.

(** X14.  Only clearing removes the credentials file: login, verify,
    persist and list remove no file, whatever they are answered and
    whatever their outcome; the file goes only in [clear_tokens], which
    refresh and [__post_init__] call on failure. *)
Theorem only_clearing_removes_the_file env st o q :
  o <> OpClear -> o <> OpRefresh ->
  is_Some (disk st !! q) ->
  is_Some (disk (final (run_op o env st)) !! q).
Proof.
  intros Hc Hr.
  assert (removes_nothing (run_op o)) as H; [|apply H].
  destruct o; try done; cbn [run_op];
    walk @removes_nothing_bind @removes_nothing_if removes_nothing_step.
Qed.

Lemma only_clearing_removes_the_file_witness :
  let env := server unauthorized unauthorized unauthorized in
  let st := {| self := stale_client; disk := {[ creds_json := stale_file ]} |} in
  outcome (run_op OpLogin env st) = Raised (Exception "Access not granted: token_not_valid") /\
  is_Some (disk (final (run_op OpLogin env st)) !! creds_json).
Proof.
  intros env st. split; [reflexivity|].
  apply (only_clearing_removes_the_file env st OpLogin creds_json); [discriminate..|].
  by exists stale_file.
Defined.

Lemma quiet_write_creds data : quiet (write_creds data).
Proof. unfold write_creds. walk @quiet_bind @quiet_if quiet_step. Qed.

Lemma quiet_clear_tokens : quiet clear_tokens.
Proof. unfold clear_tokens. walk @quiet_bind @quiet_if quiet_step. Qed.

#[local] Hint Resolve quiet_write_creds quiet_clear_tokens : config.

Lemma quiet_verify_token : quiet verify_token.
Proof. unfold verify_token. walk @quiet_bind @quiet_if quiet_step. Qed.

Lemma quiet_perform_refresh : quiet perform_refresh.
Proof. unfold perform_refresh. walk @quiet_bind @quiet_if quiet_step. Qed.

Lemma quiet_list endpoint limit : quiet (list_ endpoint limit).
Proof. unfold list_. walk @quiet_bind @quiet_if quiet_step. Qed.

#[local] Hint Resolve quiet_verify_token quiet_perform_refresh quiet_list : config.

(** X15.  Only login asks for credentials: verify, refresh, persist, clear
    and list never prompt at the keyboard and never make the login exchange,
    whatever they are answered.  A refresh that is refused clears the
    tokens and returns; logging in again is left to [__post_init__]. *)
Theorem only_login_prompts env st o e :
  o <> OpLogin ->
  e ∈ effects (run_op o env st) ->
  is_prompt e = false /\ is_login e = false.
Proof.
  intros Ho.
  assert (quiet (run_op o)) as H; [|apply H].
  destruct o; try done; cbn [run_op]; walk @quiet_bind @quiet_if quiet_step.
Qed.

Lemma only_login_prompts_witness :
  let env := server unauthorized unauthorized unauthorized in
  let st := {| self := stale_client; disk := {[ creds_json := stale_file ]} |} in
  outcome (run_op OpRefresh env st) = Ok tt /\
  access (self (final (run_op OpRefresh env st))) = PNone /\
  is_prompt (Unlinked creds_json) = false /\ is_login (Unlinked creds_json) = false.
Proof.
  intros env st. split; [reflexivity|]. split; [reflexivity|].
  apply (only_login_prompts env st OpRefresh (Unlinked creds_json)); [discriminate|].
  vm_compute. do 2 right. left.
Defined.

(** *** Persisting and reloading *)

(** X16.  What [write_creds] has written, a later start reads back: after
    [write_creds] on a mapping whose two tokens are non-empty, an object
    built on the same path over the resulting disk, with any tokens of its
    own, holds the same two tokens once the verify call is answered 200, and
    the disk is not written again. *)
Theorem persist_then_reload env st p d env' c' :
  cred_path (self st) = Some p ->
  truthy (dict_get d "access") = true ->
  truthy (dict_get d "refresh") = true ->
  cred_path c' = Some p ->
  status_code (send env' (verify_request
     (with_tokens (dict_get d "access") (dict_get d "refresh") c'))) = 200 ->
  let saved := final (write_creds (PDict d) env st) in
  let run := post_init env' {| self := c'; disk := disk saved |} in
  outcome run = Ok tt /\
  access (self (final run)) = access (self saved) /\
  refresh (self (final run)) = refresh (self saved) /\
  access (self (final run)) = dict_get d "access" /\
  refresh (self (final run)) = dict_get d "refresh" /\
  disk (final run) = disk saved.
Proof.
  intros Hp Ha Hr Hp' Hv saved run. unfold run, saved.
  rewrite (write_creds_run env st p d Hp). rewrite Ha, Hr. cbn [andb].
  rewrite final_triple. cbn [disk self].
  rewrite (post_init_verified_run env' _ p d); [done|exact Hp'|apply lookup_insert_eq|exact Hv].
Qed.

Lemma persist_then_reload_witness :
  let env := server unauthorized ok_empty unauthorized in
  let st := {| self := fresh_client; disk := ∅ |} in
  let d := [("access", PStr "a1"); ("refresh", PStr "r1")] in
  let saved := final (write_creds (PDict d) env st) in
  access (self (final (post_init env {| self := stale_client; disk := disk saved |})))
    = PStr "a1" /\
  refresh (self (final (post_init env {| self := stale_client; disk := disk saved |})))
    = PStr "r1".
Proof.
  intros env st d saved.
  destruct (persist_then_reload env st creds_json d env stale_client
              eq_refl eq_refl eq_refl eq_refl eq_refl)
    as (_ & _ & _ & Ha & Hr & _).
  split; [exact Ha | exact Hr].
Defined.

(** *** Logging in *)

(** X17.  [perform_auth] prints [access granted] on every 200 answer,
    before it reads the body.  When the body is not JSON, or is JSON but not
    an object, it then raises ([JSONDecodeError] out of [r.json()], or
    [AttributeError] out of [data.get]) with the object and the disk as they
    were: the message does not mean that tokens were stored. *)
Theorem perform_auth_granted_before_parsing env st p :
  cred_path (self st) = Some p ->
  status_code (send env (login_request env)) = 200 ->
  let run := perform_auth env st in
  Printed "access granted" ∈ effects run /\
  (json (send env (login_request env)) = None ->
     outcome run = Raised JSONDecodeError /\ final run = st) /\
  (forall v, json (send env (login_request env)) = Some v -> (forall d, v <> PDict d) ->
     outcome run = Raised AttributeError /\ final run = st).
Proof.
  intros Hp Hst run. unfold run. split; [|split].
  - destruct (json (send env (login_request env))) as [data|] eqn:Hv.
    + rewrite (perform_auth_granted_run env st data Hst Hv), effects_triple.
      apply elem_of_app. right. left.
    + rewrite (perform_auth_not_json_run env st Hst Hv), effects_triple.
      apply elem_of_app. right. left.
  - intros Hv. by rewrite (perform_auth_not_json_run env st Hst Hv).
  - intros v Hv Hd. rewrite (perform_auth_granted_run env st v Hst Hv).
    by rewrite (write_creds_not_dict env st p v Hp Hd).
Qed.

Lemma perform_auth_granted_before_parsing_witness :
  let env := server ok_not_json unauthorized unauthorized in
  let st := {| self := fresh_client; disk := ∅ |} in
  Printed "access granted" ∈ effects (perform_auth env st) /\
  outcome (perform_auth env st) = Raised JSONDecodeError /\
  final (perform_auth env st) = st.
Proof.
  intros env st.
  destruct (perform_auth_granted_before_parsing env st creds_json eq_refl eq_refl)
    as (Hprinted & Hnone & _).
  split; [exact Hprinted|]. apply Hnone. reflexivity.
Defined.

Lemma write_creds_any_env data env1 env2 st :
  write_creds data env1 st = write_creds data env2 st.
Proof.
  destruct (cred_path (self st)) as [p|] eqn:Hp.
  - destruct data as [| | | | | |d];
      try (by rewrite !(write_creds_not_dict _ st p) by done).
    by rewrite !(write_creds_run _ st p d Hp).
  - by rewrite !write_creds_no_path.
Qed.

(** X18.  The password goes into the login request and nowhere else: with
    the same keyboard and the same server, two runs of [perform_auth] in
    which different passwords are typed and the server answers alike end
    with the same outcome, the same object and the same disk, and have the
    same effects apart from the request itself (the prompts, what is
    printed, what is written). *)
Theorem password_only_in_request env st pw1 pw2 :
  send env (login_request (with_password pw1 env))
    = send env (login_request (with_password pw2 env)) ->
  let run1 := perform_auth (with_password pw1 env) st in
  let run2 := perform_auth (with_password pw2 env) st in
  outcome run1 = outcome run2 /\
  final run1 = final run2 /\
  List.filter (fun e => negb (is_sent e)) (effects run1)
    = List.filter (fun e => negb (is_sent e)) (effects run2).
Proof.
  intros Hsame run1 run2. unfold run1, run2.
  set (env1 := with_password pw1 env) in *. set (env2 := with_password pw2 env) in *.
  assert (send env1 (login_request env1) = send env2 (login_request env2)) as Hrs
    by exact Hsame.
  assert (forall data,
            write_creds data env1 st = write_creds data env2 st) as Hw
    by (intros data; apply write_creds_any_env).
  assert (List.filter (fun e => negb (is_sent e)) (login_events env1)
          = List.filter (fun e => negb (is_sent e)) (login_events env2)) as Hev
    by reflexivity.
  destruct (decide (status_code (send env1 (login_request env1)) = 200)) as [Hst|Hst].
  - destruct (json (send env1 (login_request env1))) as [data|] eqn:Hv.
    + rewrite (perform_auth_granted_run env1 st data Hst Hv).
      rewrite (perform_auth_granted_run env2 st data) by (by rewrite <- Hrs).
      rewrite !outcome_triple, !final_triple, !effects_triple, !List.filter_app, Hev, Hw.
      done.
    + rewrite (perform_auth_not_json_run env1 st Hst Hv).
      rewrite (perform_auth_not_json_run env2 st) by (by rewrite <- Hrs).
      rewrite !outcome_triple, !final_triple, !effects_triple, !List.filter_app, Hev.
      done.
  - rewrite (perform_auth_denied_run env1 st Hst).
    rewrite (perform_auth_denied_run env2 st) by (by rewrite <- Hrs).
    rewrite !outcome_triple, !final_triple, !effects_triple, Hev, Hrs. done.
Qed.

Lemma password_only_in_request_witness :
  let env := server (ok_tokens "a1" "r1") unauthorized unauthorized in
  let st := {| self := fresh_client; disk := ∅ |} in
  login_request (with_password "hunter2" env) <> login_request (with_password "swordfish" env) /\
  final (perform_auth (with_password "hunter2" env) st)
    = final (perform_auth (with_password "swordfish" env) st).
Proof.
  intros env st. split; [discriminate|].
  destruct (password_only_in_request env st "hunter2" "swordfish" eq_refl) as (_ & Hfin & _).
  exact Hfin.
Defined.

(** *** Refreshing *)

(** X19.  [perform_refresh] first prints [Refreshing token.] and then posts
    to [/token/refresh/], whatever tokens are held: the body carries the
    [str()] of the refresh token, which is the text [None] when there is
    none, and the request carries the authorization header of the current
    access token, the very one that failed to verify, or no header when no
    access token is held. *)
Theorem perform_refresh_request env st :
  exists rs rest,
    effects (perform_refresh env st)
      = Printed "Refreshing token." :: Sent (refresh_request (self st)) rs :: rest /\
    rs = send env (refresh_request (self st)) /\
    rq_url (refresh_request (self st)) = "http://localhost:8000/api/token/refresh/" /\
    rq_json (refresh_request (self st))
      = Some (PDict [("refresh", PStr (py_str (refresh (self st))))]) /\
    (refresh (self st) = PNone ->
       rq_json (refresh_request (self st)) = Some (PDict [("refresh", PStr "None")])) /\
    (truthy (access (self st)) = false -> rq_headers (refresh_request (self st)) = ∅) /\
    (truthy (access (self st)) = true ->
       rq_headers (refresh_request (self st))
         = {[ "Authorization" := header_type (self st) +:+ " " +:+ py_str (access (self st)) ]}).
Proof.
  unfold perform_refresh. cbn.
  change {| rq_method := POST; rq_url := _; rq_json := _; rq_headers := _ |}
    with (refresh_request (self st)).
  match goal with |- context [(if ?b then ?x else ?y) env st] =>
    destruct ((if b then x else y) env st) as [[res st'] evs] end.
  rewrite effects_triple. exists (send env (refresh_request (self st))), evs.
  split; [reflexivity|]. do 3 (split; [reflexivity|]).
  split; [by intros ->|]. unfold refresh_request, get_headers. cbn.
  split; intros ->; reflexivity.
Qed.

Lemma perform_refresh_request_witness :
  exists rs rest,
    effects (perform_refresh (server unauthorized unauthorized unauthorized)
               {| self := fresh_client; disk := ∅ |})
      = Printed "Refreshing token."
          :: Sent {| rq_method := POST; rq_url := "http://localhost:8000/api/token/refresh/";
                     rq_json := Some (PDict [("refresh", PStr "None")]);
                     rq_headers := ∅ |} rs :: rest.
Proof.
  destruct (perform_refresh_request (server unauthorized unauthorized unauthorized)
              {| self := fresh_client; disk := ∅ |}) as (rs & rest & Hevs & _).
  exists rs, rest. exact Hevs.
Defined.

(** *** The script *)

#[local] Arguments list_ : simpl never.
#[local] Arguments post_init : simpl never.

Lemma construct_run c env st :
  construct c env st = post_init env {| self := c; disk := disk st |}.
Proof.
  unfold construct. rewrite bind_eq. cbn [set_self].
  by destruct (post_init env _) as [[res st1] evs1].
Qed.

Lemma list_of_run env st v limit :
  truthy v = true ->
  list_of v limit env st = list_ (Some (py_str v)) limit env st.
Proof. by destruct v. Qed.

(** The script up to the first page: the object is built, the page is
    fetched and its two fields are read. *)
Lemma main_first_page env st st1 evs1 d :
  post_init env {| self := fresh_client; disk := disk st |} = (Ok tt, st1, evs1) ->
  status_code (send env (first_page_request (self st1))) = 200 ->
  json (send env (first_page_request (self st1))) = Some (PDict d) ->
  main env st =
    match sized_of (dict_get d "results") with
    | None =>
        (Raised TypeError, st1,
         (evs1 ++ [Sent (first_page_request (self st1))
                     (send env (first_page_request (self st1)))])%list)
    | Some results =>
        let printed :=
          Printed ("First lookup result length " +:+ pretty (py_len results)) in
        let so_far :=
          (evs1 ++ [Sent (first_page_request (self st1))
                      (send env (first_page_request (self st1))); printed])%list in
        if truthy (dict_get d "next") then
          let rq2 := next_page_request (self st1) (dict_get d "next") in
          (match status_code (send env rq2) =? 200, json (send env rq2) with
           | false, _ =>
               Raised (Exception ("Request not complete " +:+ text (send env rq2)))
           | true, None => Raised JSONDecodeError
           | true, Some (PDict d2) =>
               match py_iadd results (dict_get d2 "results") with
               | Some _ => Ok tt
               | None => Raised TypeError
               end
           | true, Some _ => Raised AttributeError
           end,
           st1, so_far ++ [Sent rq2 (send env rq2)])%list
        else (Ok tt, st1, so_far)
    end.
Proof.
  intros Hinit Hst Hj. unfold main.
  rewrite bind_eq, construct_run, Hinit.
  rewrite bind_eq, list_run. cbn zeta.
  change {| rq_method := GET; rq_url := _; rq_json := _; rq_headers := _ |}
    with (first_page_request (self st1)).
  rewrite Hst, Hj. cbn [Z.eqb Pos.eqb py_get ret bind].
  destruct (sized_of (dict_get d "results")) as [results|]; cbn; [|reflexivity].
  destruct (truthy (dict_get d "next")) eqn:Hnext; cbn.
  2: { by rewrite ?app_nil_r, <- ?app_assoc. }
  rewrite bind_eq, (list_of_run env st1 _ 3 Hnext), list_run. cbn zeta.
  change {| rq_method := GET; rq_url := _; rq_json := _; rq_headers := _ |}
    with (next_page_request (self st1) (dict_get d "next")).
  set (rq2 := next_page_request (self st1) (dict_get d "next")).
  rewrite <- ?app_assoc. cbn [app].
  destruct (status_code (send env rq2) =? 200); cbn; [|reflexivity].
  destruct (json (send env rq2)) as [[| | | | | |d2]|]; cbn; try reflexivity.
  destruct (py_iadd results (dict_get d2 "results")); cbn; by rewrite ?app_nil_r.
Qed.

(** X20.  When the client is built and the first page is a 200 answer
    whose JSON object holds a list under [results] and nothing (a missing
    key, [null], an empty string) under [next], the script prints the
    number of results and ends normally: it sends the one GET, for
    [/products/?limit=5], and leaves the client as [__post_init__] built
    it. *)
Theorem main_single_page env st st1 evs1 d l :
  post_init env {| self := fresh_client; disk := disk st |} = (Ok tt, st1, evs1) ->
  status_code (send env (first_page_request (self st1))) = 200 ->
  json (send env (first_page_request (self st1))) = Some (PDict d) ->
  dict_get d "results" = PList l ->
  truthy (dict_get d "next") = false ->
  main env st =
    (Ok tt, st1,
     evs1 ++ [Sent (first_page_request (self st1))
                (send env (first_page_request (self st1)));
              Printed ("First lookup result length " +:+ pretty (Z.of_nat (List.length l)))])%list.
Proof.
  intros Hinit Hst Hj Hres Hnext.
  rewrite (main_first_page env st st1 evs1 d Hinit Hst Hj), Hres. cbn [sized_of].
  cbn zeta. by rewrite Hnext.
Qed.

Lemma main_single_page_witness :
  let env := catalogue (page (PList [PInt 1; PInt 2]) PNone) in
  let st := {| self := fresh_client; disk := {[ creds_json := stale_file ]} |} in
  outcome (main env st) = Ok tt /\
  Printed "First lookup result length 2" ∈ effects (main env st) /\
  gets (effects (main env st)) = 1%nat.
Proof.
  intros env st.
  rewrite (main_single_page env st {| self := stale_client; disk := disk st |}
             [Sent (verify_request stale_client) ok_empty]
             [("results", PList [PInt 1; PInt 2]); ("next", PNone)] [PInt 1; PInt 2]);
    try reflexivity.
  split; [reflexivity|]. split; [|reflexivity]. do 2 right. left.
Defined.

(** X21.  When the JSON object of the first page has nothing with a length
    under [results] (the key is missing, or holds [null], a number or a
    boolean), the script raises [TypeError] out of [len(results)]: nothing is
    printed and no second request is sent, whatever the page holds under
    [next]. *)
Theorem main_without_results env st st1 evs1 d :
  post_init env {| self := fresh_client; disk := disk st |} = (Ok tt, st1, evs1) ->
  status_code (send env (first_page_request (self st1))) = 200 ->
  json (send env (first_page_request (self st1))) = Some (PDict d) ->
  dict_has d "results" = false \/ sized_of (dict_get d "results") = None ->
  main env st =
    (Raised TypeError, st1,
     evs1 ++ [Sent (first_page_request (self st1))
                (send env (first_page_request (self st1)))])%list.
Proof.
  intros Hinit Hst Hj Hres.
  assert (sized_of (dict_get d "results") = None) as Hnone.
  { destruct Hres as [Hres|Hres]; [|exact Hres]. by rewrite (dict_get_absent d _ Hres). }
  by rewrite (main_first_page env st st1 evs1 d Hinit Hst Hj), Hnone.
Qed.

Lemma main_without_results_witness :
  let env := catalogue {| status_code := 200; text := "{}";
                          json := Some (PDict [("next", PStr "http://localhost:8000/api/p2")]) |} in
  let st := {| self := fresh_client; disk := {[ creds_json := stale_file ]} |} in
  outcome (main env st) = Raised TypeError /\ gets (effects (main env st)) = 1%nat.
Proof.
  intros env st.
  rewrite (main_without_results env st {| self := stale_client; disk := disk st |}
             [Sent (verify_request stale_client) ok_empty]
             [("next", PStr "http://localhost:8000/api/p2")]);
    try reflexivity; [|by left].
  split; reflexivity.
Defined.



Lemma gets_app evs1 evs2 : gets (evs1 ++ evs2) = (gets evs1 + gets evs2)%nat.
Proof. unfold gets. by rewrite List.filter_app, length_app. Qed.

Lemma gets_at_most_bind a b {A B} (m : M A) (k : A -> M B) :
  gets_at_most a m -> (forall x, gets_at_most b (k x)) ->
  gets_at_most (a + b) (bind m k).
Proof.
  intros Hm Hk env st. rewrite bind_eq. specialize (Hm env st).
  destruct (m env st) as [[[x|e] st1] evs1]; cbn beta iota;
    rewrite ?effects_triple in *; [|lia].
  specialize (Hk x env st1).
  destruct (k x env st1) as [[r st2] evs2]. rewrite ?effects_triple in *.
  rewrite gets_app. lia.
Qed.

Lemma gets_none_bind {A B} (m : M A) (k : A -> M B) :
  gets_at_most 0 m -> (forall x, gets_at_most 0 (k x)) -> gets_at_most 0 (bind m k).
Proof. apply (gets_at_most_bind 0 0). Qed.

Lemma gets_at_most_if n {A} (b : bool) (m1 m2 : M A) :
  gets_at_most n m1 -> gets_at_most n m2 -> gets_at_most n (if b then m1 else m2).
Proof. intros H1 H2. by destruct b. Qed.

Lemma gets_at_most_more n n' {A} (m : M A) :
  (n <= n')%nat -> gets_at_most n m -> gets_at_most n' m.
Proof. intros Hle Hm env st. specialize (Hm env st). lia. Qed.

Ltac gets_step :=
  intros ? [[? ? ? [?|]] ?]; unfold_step; cbn; repeat case_match; cbn; lia.

Ltac no_gets :=
  walk @gets_none_bind (@gets_at_most_if 0%nat) gets_step.

Lemma gets_none_write_creds data : gets_at_most 0 (write_creds data).
Proof. unfold write_creds. no_gets. Qed.

Lemma gets_none_clear_tokens : gets_at_most 0 clear_tokens.
Proof. unfold clear_tokens. no_gets. Qed.

#[local] Hint Resolve gets_none_write_creds gets_none_clear_tokens : config.

Lemma gets_none_perform_auth : gets_at_most 0 perform_auth.
Proof. unfold perform_auth. no_gets. Qed.

Lemma gets_none_verify_token : gets_at_most 0 verify_token.
Proof. unfold verify_token. no_gets. Qed.

Lemma gets_none_perform_refresh : gets_at_most 0 perform_refresh.
Proof. unfold perform_refresh. no_gets. Qed.

#[local] Hint Resolve gets_none_perform_auth gets_none_verify_token
  gets_none_perform_refresh : config.

Lemma gets_none_post_init : gets_at_most 0 post_init.
Proof. unfold post_init. no_gets. Qed.

Lemma gets_none_construct c : gets_at_most 0 (construct c).
Proof. intros env st. rewrite construct_run. apply gets_none_post_init. Qed.

Lemma gets_one_list endpoint limit : gets_at_most 1 (list_ endpoint limit).
Proof.
  intros env st. rewrite list_run. cbn zeta. rewrite effects_triple. cbn. lia.
Qed.

Lemma gets_main : gets_at_most 2 main.
Proof.
  unfold main.
  apply (gets_at_most_bind 0 2); [apply gets_none_construct|intros _].
  apply (gets_at_most_bind 1 1); [apply gets_one_list|intros page1].
  apply (gets_at_most_bind 0 1); [destruct page1; gets_step|intros results].
  apply (gets_at_most_bind 0 1); [destruct page1; gets_step|intros next_url].
  destruct (sized_of results) as [sz|]; [|gets_step].
  apply (gets_at_most_bind 0 1); [gets_step|intros _].
  apply gets_at_most_if; [|gets_step].
  apply (gets_at_most_bind 1 0).
  - destruct next_url; apply gets_one_list.
  - intros page2. apply (gets_at_most_bind 0 0); [destruct page2; gets_step|intros more].
    destruct (py_iadd sz more); gets_step.
Qed.

(** X23.  GET requests come from [list] alone: building the client sends
    none (its requests are posted), each call of [list] sends one, and the
    script sends at most two in all, whatever it is answered and however it
    ends. *)
Theorem script_sends_at_most_two_gets env st endpoint limit :
  gets (effects (post_init env st)) = 0%nat /\
  gets (effects (list_ endpoint limit env st)) = 1%nat /\
  (gets (effects (main env st)) <= 2)%nat.
Proof.
  split; [|split].
  - pose proof (gets_none_post_init env st). lia.
  - rewrite list_run. reflexivity.
  - apply gets_main.
Qed.
